(** * bloom vcpkg generator: substitution and resolution pipeline

    A shallow embedding of [bloom/generators/vcpkg/generator.py] and the
    properties its specification states about it.

    Python [str] values are modelled as [string]; a character is a code
    point below 256.  Python exceptions are values of [exn]; a computation
    that can raise returns a [result]. *)

From Stdlib Require Import Ascii String List Bool Arith Lia.
From stdpp Require Import base option list gmap strings.
From Equations Require Import Equations.

Local Open Scope stdpp_scope.

(** ** Exceptions and results *)

Inductive exn : Type :=
| KeyError (key : string)
| IndexError
| ValueError
| RuntimeError (msg : string)
| SystemExit (msg : string).

Inductive result (A : Type) : Type :=
| Ok (a : A)
| Raise (e : exn).
Arguments Ok {A} a.
Arguments Raise {A} e.

(** ** Python string primitives *)

Module Str.

Definition LF : ascii := "010"%char.

(** [str.isspace] on one character, which is also what the regular
    expression class [\s] accepts on a [str] pattern: the code points
    9-13, 28-32, 133 and 160. *)
Definition isspace (c : ascii) : bool :=
  match c with
  | "009" | "010" | "011" | "012" | "013"
  | "028" | "029" | "030" | "031" | " "
  | "133" | "160" => true
  | _ => false
  end%char.

(** [c in s] for a one-character [c]. *)
Fixpoint has (c : ascii) (s : string) : bool :=
  match s with
  | EmptyString => false
  | String d r => if ascii_dec d c then true else has c r
  end.

(** [s.startswith(p)]. *)
Fixpoint startswith (p s : string) : bool :=
  match p, s with
  | EmptyString, _ => true
  | String _ _, EmptyString => false
  | String a p', String b s' => if ascii_dec a b then startswith p' s' else false
  end.

(** [needle in hay]: substring test. *)
Fixpoint contains (needle hay : string) : bool :=
  startswith needle hay ||
  match hay with
  | EmptyString => false
  | String _ r => contains needle r
  end.

(** [s[n:]] for [0 <= n]. *)
Fixpoint drop (n : nat) (s : string) : string :=
  match n, s with
  | 0, _ => s
  | S _, EmptyString => EmptyString
  | S n', String _ r => drop n' r
  end.

(** [s[:n]] for [0 <= n]. *)
Fixpoint take (n : nat) (s : string) : string :=
  match n, s with
  | 0, _ => EmptyString
  | S _, EmptyString => EmptyString
  | S n', String c r => String c (take n' r)
  end.

(** [s[:-k]] for [0 < k]: everything but the last [k] characters, empty
    when [s] is shorter than [k]. *)
Definition drop_last (k : nat) (s : string) : string :=
  take (String.length s - k) s.

(** [s.lstrip()]. *)
Fixpoint lstrip (s : string) : string :=
  match s with
  | EmptyString => EmptyString
  | String c r => if isspace c then lstrip r else s
  end.

(** [s.rstrip()]. *)
Fixpoint rstrip (s : string) : string :=
  match s with
  | EmptyString => EmptyString
  | String c r =>
      match rstrip r with
      | EmptyString => if isspace c then EmptyString else String c EmptyString
      | r' => String c r'
      end
  end.

(** [s.strip()]. *)
Definition strip (s : string) : string := rstrip (lstrip s).

(** The first occurrence of a non-empty [sep] in [s]: the text before it
    and the text after it ([s.partition(sep)] without the middle). *)
Fixpoint find_split (sep s : string) : option (string * string) :=
  if startswith sep s then Some (EmptyString, drop (String.length sep) s)
  else match s with
       | EmptyString => None
       | String c r =>
           match find_split sep r with
           | Some (a, b) => Some (String c a, b)
           | None => None
           end
       end.

(** [s.split(sep, 1)] for a non-empty [sep]. *)
Definition split1 (sep s : string) : list string :=
  match find_split sep s with
  | Some (a, b) => [a; b]
  | None => [s]
  end.

(** [s + c] for a character [c]. *)
Fixpoint snoc (s : string) (c : ascii) : string :=
  match s with
  | EmptyString => String c EmptyString
  | String d r => String d (snoc r c)
  end.

(** [s.split(c)] for a one-character separator [c]. *)
Fixpoint split_char (c : ascii) (s : string) : list string :=
  match s with
  | EmptyString => [EmptyString]
  | String d r =>
      if ascii_dec d c then EmptyString :: split_char c r
      else match split_char c r with
           | h :: t => String d h :: t
           | [] => [String d EmptyString]
           end
  end.

End Str.

(** [l[-k]] for [0 < k]: [IndexError] when the list has fewer than [k]
    elements. *)
Definition index_from_end {A : Type} (l : list A) (k : nat) : result A :=
  if length l <? k then Raise IndexError
  else match nth_error l (length l - k) with
       | Some x => Ok x
       | None => Raise IndexError
       end.

(** ** Regular-expression substitutions of [vcpkgize_string] *)

(** After a ["<"], the pattern [<.*?>] needs a [">"] before the next line
    feed, since [.] matches every character but the line feed and the lazy
    [.*?] stops at the first [">"].  [tag_end r] is the text after that
    [">"], if there is one. *)
Fixpoint tag_end (r : string) : option string :=
  match r with
  | EmptyString => None
  | String c r' =>
      if ascii_dec c ">"%char then Some r'
      else if ascii_dec c Str.LF then None
      else tag_end r'
  end.

(** A value together with the equation that says where it comes from; it
    keeps [tag_end r = Some r'] at hand for the termination argument. *)
Definition inspect {A : Type} (a : A) : {b : A | a = b} := exist _ a eq_refl.

(** [re.compile(r'<.*?>').sub('', value)]: scanning from the left, every
    match is dropped and scanning resumes after it; a character where no
    match starts is kept. *)
Equations? markup_remover_sub (value : string) : string by wf (String.length value) lt :=
  markup_remover_sub EmptyString := EmptyString;
  markup_remover_sub (String c r) with ascii_dec c "<"%char := {
    | left _ with inspect (tag_end r) := {
        | exist _ (Some r') E := markup_remover_sub r';
        | exist _ None _ := String c (markup_remover_sub r) };
    | right _ := String c (markup_remover_sub r) }.
Proof.
  all: simpl; try lia.
  clear markup_remover_sub. revert r' E.
  induction r as [|d r IH]; intros r' E; simpl in E; [discriminate|].
  destruct (ascii_dec d ">"%char); [injection E as <-; simpl; lia|].
  destruct (ascii_dec d Str.LF); [discriminate|].
  specialize (IH _ E). simpl. lia.
Qed.

(** [re.sub('\s+', ' ', value)]: every maximal run of whitespace becomes one
    space.  [in_run] tells that the previous character was whitespace, so
    that the run's space has been written already. *)
Fixpoint whitespace_sub_from (in_run : bool) (value : string) : string :=
  match value with
  | EmptyString => EmptyString
  | String c r =>
      if Str.isspace c
      then if in_run then whitespace_sub_from true r
           else String " "%char (whitespace_sub_from true r)
      else String c (whitespace_sub_from false r)
  end.

Definition whitespace_sub (value : string) : string :=
  whitespace_sub_from false value.

(** ** Text formatter *)

Definition vcpkgize_string (value : string) : string :=
  let value := markup_remover_sub value in
  let value := whitespace_sub value in
  let value := Str.strip value in
  value.

Definition format_description (value : string) : string :=
  let value := vcpkgize_string value in
  let parts := Str.split1 ". " value in
  if (length parts =? 1) || (String.length (nth 1 parts EmptyString) =? 0)
  then value
  else nth 0 parts EmptyString +:+ "." +:+ String Str.LF " " +:+ Str.strip (nth 1 parts EmptyString).

(** ** Dependency flattener *)

Record Dependency : Type := { name : string }.

(** The inner loop: [formatted.append(resolved_dep)] for every element. *)
Definition append_each (formatted resolved : list string) : list string :=
  fold_left (fun acc resolved_dep => acc ++ [resolved_dep]) resolved formatted.

(** The outer loop, with the list [formatted] built so far;
    [resolved_deps[d.name]] raises [KeyError] on a missing key. *)
Fixpoint format_depends_from (formatted : list string) (depends : list Dependency)
    (resolved_deps : gmap string (list string)) : result (list string) :=
  match depends with
  | [] => Ok formatted
  | d :: depends' =>
      match resolved_deps !! name d with
      | None => Raise (KeyError (name d))
      | Some resolved => format_depends_from (append_each formatted resolved) depends' resolved_deps
      end
  end.

Definition format_depends (depends : list Dependency)
    (resolved_deps : gmap string (list string)) : result (list string) :=
  format_depends_from [] depends resolved_deps.

(** ** Substitutions *)

(** The substitution dict.  Only its string-valued entries are kept: they
    are the only ones [get_subs_hook] and [generate_tag_name] read or
    write.  The entry ['changelogs'], a list of tuples, is the argument of
    [releaser_history] below. *)
Abbreviation Subs := (gmap string string).

(** [str.format] with keyword arguments [kwargs], for a template whose
    replacement fields are plain names, as the tag template is.  [field] is
    the name being read inside braces, if any.  A name absent from [kwargs] raises [KeyError];
    a lone brace raises [ValueError]. *)
Fixpoint format_from (field : option string) (template : string) (kwargs : Subs)
    : result string :=
  match template with
  | EmptyString =>
      match field with
      | None => Ok EmptyString
      | Some _ => Raise ValueError
      end
  | String c r =>
      match field with
      | None =>
          if ascii_dec c "{"%char then format_from (Some EmptyString) r kwargs
          else if ascii_dec c "}"%char then Raise ValueError
          else match format_from None r kwargs with
               | Ok s => Ok (String c s)
               | Raise e => Raise e
               end
      | Some f =>
          if ascii_dec c "}"%char then
            match kwargs !! f with
            | None => Raise (KeyError f)
            | Some v =>
                match format_from None r kwargs with
                | Ok s => Ok (v +:+ s)
                | Raise e => Raise e
                end
            end
          else format_from (Some (Str.snoc f c)) r kwargs
      end
  end.

Definition format (template : string) (kwargs : Subs) : result string :=
  format_from None template kwargs.

(** ** Tag name synthesizer *)

Definition package_manager : string := "vcpkg".

Definition generate_tag_name (subs : Subs) : result string :=
  let tag_name := "{Package}_{Version}-{Inc}_{Distribution}" in
  match format tag_name subs with
  | Ok formatted => Ok (package_manager +:+ "/" +:+ formatted)
  | Raise e => Raise e
  end.

(** ** Releaser history *)

(** One entry of [subs['changelogs']]: a 5-tuple, of which the first, fourth
    and fifth components are the version, the name and the email. *)
Definition changelog : Type := string * string * string * string * string.

(** [m.update(pairs)]: the pairs are inserted from left to right. *)
Definition dict_update {V : Type} (m : gmap string V) (pairs : list (string * V))
    : gmap string V :=
  fold_left (fun m kv => <[kv.1 := kv.2]> m) pairs m.

(** [dict(pairs)]: the pairs are inserted into the empty dict. *)
Definition dict {V : Type} (pairs : list (string * V)) : gmap string V :=
  dict_update ∅ pairs.

(** [dict([(v, (n, e)) for v, _, _, n, e in subs['changelogs']])] *)
Definition releaser_history (changelogs : list changelog) : gmap string (string * string) :=
  dict (map (fun '(v, _, _, n, e) => (v, (n, e))) changelogs).

(** ** The world of [get_subs_hook] *)

(** Calls to the release index, in the order they are made. *)
Inductive event : Type :=
| GetIndex
| GetDistributionFile (ros_distro : string).

(** The dict [subs] that the hook mutates, and the calls made so far (latest
    first). *)
Record world : Type := World { subs : Subs; calls : list event }.

(** A computation reads and updates the world and returns or raises; the
    world it leaves behind is kept in both cases, since a mutation made
    before an exception stays. *)
Definition M (A : Type) : Type := world -> result A * world.

Global Instance M_ret : MRet M := fun A a w => (Ok a, w).

Global Instance M_bind : MBind M := fun A B f m w =>
  match m w with
  | (Ok a, w') => f a w'
  | (Raise e, w') => (Raise e, w')
  end.

Definition raise {A : Type} (e : exn) : M A := fun w => (Raise e, w).

Definition lift {A : Type} (r : result A) : M A := fun w => (r, w).

(** [subs[key] = value] *)
Definition setitem (key value : string) : M unit :=
  fun w => (Ok tt, World (<[key := value]> (subs w)) (calls w)).

(** [subs[key]] *)
Definition getitem (key : string) : M string :=
  fun w => match subs w !! key with
           | Some v => (Ok v, w)
           | None => (Raise (KeyError key), w)
           end.

Definition get_subs : M Subs := fun w => (Ok (subs w), w).

Definition call (e : event) : M unit :=
  fun w => (Ok tt, World (subs w) (e :: calls w)).

(** Modelled from the spec: [bloom.logging.error] is not part of the source
    at hand.  With [exit=True] it reports the message and terminates the
    process, which Python does by raising [SystemExit]; otherwise it
    returns. *)
Definition error (msg : string) (exit : bool) : M unit :=
  if exit then raise (SystemExit msg) else mret tt.

(** Modelled from the spec: the release index of the external [rosdistro]
    library.  An index maps a distribution name to its distribution file,
    whose [repositories] map a name to the url of its release repository. *)
Abbreviation DistributionFile := (gmap string string).
Abbreviation Index := (gmap string DistributionFile).

(** Modelled from the spec: [rosdistro.get_index(rosdistro.get_index_url())]. *)
Definition rosdistro_get_index (index : Index) : M Index :=
  call GetIndex;; mret index.

(** Modelled from the spec: [rosdistro.get_distribution_file], which fails
    for an unknown distribution. *)
Definition rosdistro_get_distribution_file (index : Index) (ros_distro : string)
    : M DistributionFile :=
  call (GetDistributionFile ros_distro);;
  match index !! ros_distro with
  | Some distribution_file => mret distribution_file
  | None => raise (RuntimeError ros_distro)
  end.

(** [distribution_file.repositories[name].release_repository.url] *)
Definition release_repository_url (distribution_file : DistributionFile) (key : string)
    : M string :=
  match distribution_file !! key with
  | Some url => mret url
  | None => raise (KeyError key)
  end.

(** ** Release coordinate resolver and substitution hook *)

Record Package : Type := { package_name : string; build_type : string }.

Definition get_build_type (package : Package) : string := build_type package.

Definition vcpkg_support_git_sources : list string := ["github"; "gitlab"; "bitbucket"].

Definition unsupported_build_type (build_type : string) : string :=
  "Build type '" +:+ build_type +:+ "' is not supported by this version of bloom.".

Definition unsupported_release_url (release_url : string) : string :=
  "Currently Bloom don't support release url: " +:+ release_url +:+ " currently".

(** The [for ... else] loop over the supported sources: the first source
    found in the url is stored and ends the loop; the [else] branch runs
    when the list is exhausted. *)
Fixpoint select_git_source (sources : list string) (release_url : string) : M unit :=
  match sources with
  | [] => error (unsupported_release_url release_url) true
  | git_source :: sources' =>
      if Str.contains git_source release_url
      then setitem "git_source" git_source
      else select_git_source sources' release_url
  end.

Definition get_subs_hook (index : Index) (package : Package) (ros_distro : string) : M Subs :=
  let build_type := get_build_type package in
  (if negb (String.eqb build_type "ament_cmake")
   then error (unsupported_build_type build_type) true
   else mret tt);;
  index ← rosdistro_get_index index;
  distribution_file ← rosdistro_get_distribution_file index ros_distro;
  release_url ← release_repository_url distribution_file (package_name package);
  select_git_source vcpkg_support_git_sources release_url;;
  user_name ← lift (index_from_end (Str.split_char "/"%char release_url) 2);
  setitem "user_name" user_name;;
  repo_name ← lift (index_from_end (Str.split_char "/"%char release_url) 1);
  setitem "repo_name" repo_name;;
  repo_name ← getitem "repo_name";
  (if Str.contains ".git" repo_name
   then repo_name ← getitem "repo_name"; setitem "repo_name" (Str.drop_last 4 repo_name)
   else mret tt);;
  subs ← get_subs;
  tag_name ← lift (generate_tag_name subs);
  setitem "tag_name" tag_name;;
  get_subs.

(** ** Commands of [generate_package] *)

(** [sep.join(l)] *)
Fixpoint join (sep : string) (l : list string) : string :=
  match l with
  | [] => EmptyString
  | [x] => x
  | x :: rest => x +:+ sep +:+ join sep rest
  end.

(** The command that removes the residual template files: every file name
    is put between single quotes. *)
Definition git_rm_command (template_files : list string) : string :=
  "git rm -rf " +:+ join " " (map (fun t => "'" +:+ t +:+ "'") template_files).

(** ** Sample data *)

Definition sample_subs : Subs :=
  <["Package" := "widget"]> (<["Version" := "1.2.0"]>
    (<["Inc" := "1"]> (<["Distribution" := "humble"]> ∅))).

Definition sample_index (release_url : string) : Index :=
  {[ "humble" := {[ "widget" := release_url ]} ]}.

Definition sample_package : Package :=
  {| package_name := "widget"; build_type := "ament_cmake" |}.

Definition sample_resolved : gmap string (list string) :=
  <["A" := ["a1"; "a2"]]> (<["B" := ["b1"]]> ∅).

(** ** Vocabulary of the properties *)

(** [resolved] lists, in order, the entries of the dependencies in
    [resolved_deps]. *)
Definition entries_of (resolved_deps : gmap string (list string))
    (depends : list Dependency) (resolved : list (list string)) : Prop :=
  Forall2 (fun d names => resolved_deps !! name d = Some names) depends resolved.

(** The version of a changelog entry. *)
Definition version (entry : changelog) : string :=
  let '(v, _, _, _, _) := entry in v.

(** [needle] occurs somewhere in [hay]. *)
Definition occurs_in (needle hay : string) : Prop :=
  exists a b, hay = a +:+ needle +:+ b.

(** [s] ends with [suffix]. *)
Definition ends_with (suffix s : string) : Prop :=
  exists a, s = a +:+ suffix.

(** No ["<"] of the string has a [">"] after it. *)
Fixpoint no_tag (s : string) : Prop :=
  match s with
  | EmptyString => True
  | String c r => (c = "<"%char -> Str.has ">"%char r = false) /\ no_tag r
  end.

(** The first character is whitespace. *)
Definition head_space (s : string) : bool :=
  match s with
  | EmptyString => false
  | String c _ => Str.isspace c
  end.

(** Whitespace occurs only as single spaces. *)
Fixpoint squeezed (s : string) : Prop :=
  match s with
  | EmptyString => True
  | String c r => (Str.isspace c = true -> c = " "%char /\ head_space r = false) /\ squeezed r
  end.

(** [m] keeps the invariant [J] of the world and raises only exceptions of
    [E]. *)
Definition keeps {A : Type} (J : world -> Prop) (E : exn -> Prop) (m : M A) : Prop :=
  forall w, J w -> J (m w).2 /\ (forall e, (m w).1 = Raise e -> E e).

(** * Properties *)

(** ** Dependency flattener *)

Section Flatten.
Context (resolved_deps : gmap string (list string)).

Lemma append_each_app formatted resolved :
  append_each formatted resolved = formatted ++ resolved.
Proof.
  unfold append_each. revert formatted.
  induction resolved as [|r resolved IH]; intros formatted; simpl.
  - by rewrite app_nil_r.
  - rewrite IH. by rewrite <- app_assoc.
Qed.

Lemma format_depends_from_entries depends : forall formatted resolved,
  entries_of resolved_deps depends resolved ->
  format_depends_from formatted depends resolved_deps = Ok (formatted ++ concat resolved).
Proof.
  induction depends as [|d depends IH]; intros formatted resolved H.
  - apply Forall2_nil_inv_l in H as ->. simpl. by rewrite app_nil_r.
  - apply Forall2_cons_inv_l in H as (names & resolved' & Hd & Hrest & ->).
    simpl. rewrite Hd, (IH _ _ Hrest), append_each_app.
    by rewrite <- app_assoc.
Qed.

Lemma format_depends_from_raise depends : forall formatted e,
  format_depends_from formatted depends resolved_deps = Raise e ->
  exists d, d ∈ depends /\ resolved_deps !! name d = None /\ e = KeyError (name d).
Proof.
  induction depends as [|d depends IH]; intros formatted e H; simpl in H.
  - discriminate.
  - destruct (resolved_deps !! name d) as [names|] eqn:Hd.
    + destruct (IH _ _ H) as (d' & Hin & Hnone & ->).
      exists d'. split; [by apply list_elem_of_further | done].
    + injection H as <-. exists d. split; [by apply list_elem_of_here | done].
Qed.

Lemma format_depends_from_missing depends : forall formatted d,
  d ∈ depends -> resolved_deps !! name d = None ->
  exists k, format_depends_from formatted depends resolved_deps = Raise (KeyError k).
Proof.
  induction depends as [|d0 depends IH]; intros formatted d Hin Hnone.
  - by apply elem_of_nil in Hin.
  - simpl. destruct (resolved_deps !! name d0) as [names|] eqn:Hd0; [|eauto].
    apply elem_of_cons in Hin as [->|Hin]; [congruence|]. eauto.
Qed.

Lemma entries_of_total depends :
  (forall d, d ∈ depends -> is_Some (resolved_deps !! name d)) ->
  exists resolved, entries_of resolved_deps depends resolved.
Proof.
  induction depends as [|d depends IH]; intros H.
  - exists []. constructor.
  - destruct (H d) as [names Hd]; [apply list_elem_of_here|].
    destruct IH as [resolved Hres].
    { intros d' Hin. apply H. by apply list_elem_of_further. }
    exists (names :: resolved). by constructor.
Qed.

Lemma length_concat_sum (ls : list (list string)) :
  length (concat ls) = sum_list (map length ls).
Proof.
  induction ls as [|l ls IH]; simpl; [done|].
  rewrite length_app. lia.
Qed.

End Flatten.

(** C4: [format_depends] preserves order.  When the map of resolved
    dependencies has an entry for the name of every dependency, the result is
    the concatenation, in the order of the dependencies, of their entries,
    each in its own order; [A, B] with [A: a1, a2] and [B: b1] gives
    [a1, a2, b1]. *)
Theorem format_depends_preserves_order :
  (forall (depends : list Dependency) (resolved_deps : gmap string (list string)),
      (forall d, d ∈ depends -> is_Some (resolved_deps !! name d)) ->
      exists resolved,
        entries_of resolved_deps depends resolved /\
        format_depends depends resolved_deps = Ok (concat resolved)) /\
  format_depends [{| name := "A" |}; {| name := "B" |}] sample_resolved
    = Ok ["a1"; "a2"; "b1"].
Proof.
  split; [|reflexivity].
  intros depends resolved_deps H.
  destruct (entries_of_total resolved_deps depends H) as [resolved Hres].
  exists resolved. split; [done|].
  unfold format_depends.
  by rewrite (format_depends_from_entries _ _ _ _ Hres).
Qed.

Lemma format_depends_preserves_order_witness :
  exists resolved,
    entries_of sample_resolved [{| name := "A" |}; {| name := "B" |}] resolved /\
    format_depends [{| name := "A" |}; {| name := "B" |}] sample_resolved
      = Ok (concat resolved).
Proof.
  apply (proj1 format_depends_preserves_order).
  intros d Hd.
  apply elem_of_cons in Hd as [->|Hd]; [vm_compute; eauto|].
  apply elem_of_cons in Hd as [->|Hd]; [vm_compute; eauto|].
  by apply elem_of_nil in Hd.
Defined.

(** C5: [format_depends] raises if and only if the name of some dependency
    has no entry in the map of resolved dependencies, and what it raises is
    then the [KeyError] of such a name: the failed lookup is not skipped.
    When every name has an entry it returns a list. *)
Theorem format_depends_raises_iff_unresolved
    (depends : list Dependency) (resolved_deps : gmap string (list string)) :
  ((exists e, format_depends depends resolved_deps = Raise e) <->
   (exists d, d ∈ depends /\ resolved_deps !! name d = None)) /\
  (forall e, format_depends depends resolved_deps = Raise e ->
     exists d, d ∈ depends /\ resolved_deps !! name d = None /\ e = KeyError (name d)) /\
  ((forall d, d ∈ depends -> is_Some (resolved_deps !! name d)) ->
     exists formatted, format_depends depends resolved_deps = Ok formatted).
Proof.
  unfold format_depends. repeat split.
  - intros [e He].
    destruct (format_depends_from_raise _ _ _ _ He) as (d & Hin & Hnone & _). eauto.
  - intros (d & Hin & Hnone).
    destruct (format_depends_from_missing resolved_deps depends [] d Hin Hnone) as [k Hk].
    eauto.
  - intros e He. by apply format_depends_from_raise in He.
  - intros H. destruct (entries_of_total resolved_deps depends H) as [resolved Hres].
    rewrite (format_depends_from_entries _ _ _ _ Hres). eauto.
Qed.

Lemma format_depends_raises_iff_unresolved_witness :
  format_depends [{| name := "A" |}; {| name := "C" |}] sample_resolved
    = Raise (KeyError "C").
Proof.
  destruct (format_depends_raises_iff_unresolved
              [{| name := "A" |}; {| name := "C" |}] sample_resolved) as (Hiff & Hkey & _).
  destruct (proj2 Hiff) as [e He].
  { exists {| name := "C" |}. split; [|reflexivity].
    apply list_elem_of_further, list_elem_of_here. }
  destruct (Hkey e He) as (d & Hin & Hnone & ->).
  rewrite He. f_equal. f_equal.
  apply elem_of_cons in Hin as [->|Hin]; [vm_compute in Hnone; discriminate|].
  apply elem_of_cons in Hin as [->|Hin]; [reflexivity|].
  by apply elem_of_nil in Hin.
Defined.

(** C10: [format_depends] removes no duplicate.  When every dependency name
    has an entry, the length of the result is the sum of the lengths of the
    entries of the dependencies; the empty list of dependencies gives the
    empty list; a name resolved under two dependencies, and twice under one
    of them, appears three times. *)
Theorem format_depends_length :
  (forall (depends : list Dependency) (resolved_deps : gmap string (list string)),
      (forall d, d ∈ depends -> is_Some (resolved_deps !! name d)) ->
      exists resolved formatted,
        entries_of resolved_deps depends resolved /\
        format_depends depends resolved_deps = Ok formatted /\
        length formatted = sum_list (map length resolved)) /\
  (forall resolved_deps, format_depends [] resolved_deps = Ok []) /\
  format_depends [{| name := "A" |}; {| name := "B" |}]
    (<["A" := ["x"; "x"]]> (<["B" := ["x"]]> ∅)) = Ok ["x"; "x"; "x"].
Proof.
  split; [|split; reflexivity].
  intros depends resolved_deps H.
  destruct (entries_of_total resolved_deps depends H) as [resolved Hres].
  exists resolved, (concat resolved). split; [done|]. split.
  - unfold format_depends. by rewrite (format_depends_from_entries _ _ _ _ Hres).
  - apply length_concat_sum.
Qed.

Lemma format_depends_length_witness :
  exists resolved formatted,
    entries_of sample_resolved [{| name := "B" |}; {| name := "A" |}] resolved /\
    format_depends [{| name := "B" |}; {| name := "A" |}] sample_resolved = Ok formatted /\
    length formatted = sum_list (map length resolved).
Proof.
  apply (proj1 format_depends_length).
  intros d Hd.
  apply elem_of_cons in Hd as [->|Hd]; [vm_compute; eauto|].
  apply elem_of_cons in Hd as [->|Hd]; [vm_compute; eauto|].
  by apply elem_of_nil in Hd.
Defined.

(** ** Facts about strings *)

Lemma app_cons (c : ascii) (s t : string) : String c s +:+ t = String c (s +:+ t).
Proof. reflexivity. Qed.

Lemma app_empty_l (s : string) : "" +:+ s = s.
Proof. reflexivity. Qed.

Lemma app_empty_r (s : string) : s +:+ "" = s.
Proof. induction s as [|c s IH]; [done|]. by rewrite app_cons, IH. Qed.

Lemma app_assoc_str (s t u : string) : (s +:+ t) +:+ u = s +:+ t +:+ u.
Proof. induction s as [|c s IH]; [done|]. by rewrite !app_cons, IH. Qed.

Lemma length_app_str (s t : string) :
  String.length (s +:+ t) = String.length s + String.length t.
Proof. induction s as [|c s IH]; [done|]. rewrite app_cons. simpl. by rewrite IH. Qed.

(** ** Tag name synthesizer *)

(** The tag name depends on four lookups only. *)
Lemma generate_tag_name_lookups (subs : Subs) :
  generate_tag_name subs =
    match subs !! "Package" with
    | None => Raise (KeyError "Package")
    | Some p =>
        match subs !! "Version" with
        | None => Raise (KeyError "Version")
        | Some v =>
            match subs !! "Inc" with
            | None => Raise (KeyError "Inc")
            | Some i =>
                match subs !! "Distribution" with
                | None => Raise (KeyError "Distribution")
                | Some d =>
                    Ok (package_manager +:+ "/" +:+ p +:+ "_" +:+ v +:+ "-" +:+ i +:+ "_" +:+ d)
                end
            end
        end
    end.
Proof.
  cbv -[lookup gmap_lookup String.eq_dec String.countable String.append package_manager].
  destruct (subs !! "Package") as [p|]; [|reflexivity].
  destruct (subs !! "Version") as [v|]; [|reflexivity].
  destruct (subs !! "Inc") as [i|]; [|reflexivity].
  destruct (subs !! "Distribution") as [d|]; [|reflexivity].
  by rewrite app_empty_r.
Qed.

(** C7: the tag name is the package manager, a slash, and the values of
    [Package], [Version], [Inc] and [Distribution] joined by ["_"], ["-"]
    and ["_"], each value as it is; two dicts that agree on these four keys
    give the same tag name; the sample values give
    ["vcpkg/widget_1.2.0-1_humble"]. *)
Theorem generate_tag_name_template :
  (forall (subs : Subs) (p v i d : string),
      subs !! "Package" = Some p -> subs !! "Version" = Some v ->
      subs !! "Inc" = Some i -> subs !! "Distribution" = Some d ->
      generate_tag_name subs
        = Ok (package_manager +:+ "/" +:+ p +:+ "_" +:+ v +:+ "-" +:+ i +:+ "_" +:+ d)) /\
  (forall subs1 subs2 : Subs,
      subs1 !! "Package" = subs2 !! "Package" ->
      subs1 !! "Version" = subs2 !! "Version" ->
      subs1 !! "Inc" = subs2 !! "Inc" ->
      subs1 !! "Distribution" = subs2 !! "Distribution" ->
      generate_tag_name subs1 = generate_tag_name subs2) /\
  package_manager = "vcpkg" /\
  generate_tag_name sample_subs = Ok "vcpkg/widget_1.2.0-1_humble".
Proof.
  repeat split.
  - intros subs p v i d Hp Hv Hi Hd.
    by rewrite generate_tag_name_lookups, Hp, Hv, Hi, Hd.
  - intros subs1 subs2 Hp Hv Hi Hd.
    by rewrite !generate_tag_name_lookups, Hp, Hv, Hi, Hd.
Qed.

Lemma generate_tag_name_template_witness :
  generate_tag_name (<["Extra" := " x "]> sample_subs)
    = Ok (package_manager +:+ "/" +:+ "widget" +:+ "_" +:+ "1.2.0" +:+ "-" +:+ "1" +:+ "_" +:+ "humble") /\
  generate_tag_name (<["Extra" := " x "]> sample_subs) = generate_tag_name sample_subs.
Proof.
  split.
  - apply (proj1 generate_tag_name_template); reflexivity.
  - apply (proj1 (proj2 generate_tag_name_template)); reflexivity.
Defined.

(** ** Releaser history *)

Section Dict.
Context {V : Type}.

Lemma dict_update_other (pairs : list (string * V)) : forall m k,
  (forall kv, kv ∈ pairs -> kv.1 ≠ k) -> dict_update m pairs !! k = m !! k.
Proof.
  induction pairs as [|kv pairs IH]; intros m k H; [done|].
  unfold dict_update in *. simpl. rewrite IH.
  - apply lookup_insert_ne. apply H, list_elem_of_here.
  - intros kv' Hin. by apply H, list_elem_of_further.
Qed.

Lemma dict_update_last (before after : list (string * V)) k x : forall m,
  (forall kv, kv ∈ after -> kv.1 ≠ k) ->
  dict_update m (before ++ (k, x) :: after) !! k = Some x.
Proof.
  induction before as [|kv before IH]; intros m H.
  - change (dict_update (<[k := x]> m) after !! k = Some x).
    rewrite dict_update_other by done. apply lookup_insert_eq.
  - apply (IH (<[kv.1 := kv.2]> m) H).
Qed.

End Dict.

(** C9: the releaser history maps a version to the name and the email of
    the last changelog entry with that version, whatever entries with the
    same version come before it; a version of no entry is not a key. *)
Theorem releaser_history_last_wins (changelogs : list changelog) (v : string) :
  (forall before after d c n e,
      changelogs = before ++ (v, d, c, n, e) :: after ->
      (forall entry, entry ∈ after -> version entry ≠ v) ->
      releaser_history changelogs !! v = Some (n, e)) /\
  ((forall entry, entry ∈ changelogs -> version entry ≠ v) ->
      releaser_history changelogs !! v = None).
Proof.
  unfold releaser_history, dict. split.
  - intros before after d c n e -> H.
    rewrite map_app. simpl.
    apply (dict_update_last _ _ v (n, e) ∅).
    intros kv Hin. apply list_elem_of_fmap in Hin as (entry & -> & Hentry).
    specialize (H entry Hentry). by destruct entry as [[[[? ?] ?] ?] ?].
  - intros H.
    rewrite dict_update_other; [apply lookup_empty|].
    intros kv Hin. apply list_elem_of_fmap in Hin as (entry & -> & Hentry).
    specialize (H entry Hentry). by destruct entry as [[[[? ?] ?] ?] ?].
Qed.

Lemma releaser_history_last_wins_witness :
  releaser_history
    [("1.0", "d1", "c1", "ann", "ann@x"); ("1.1", "d2", "c2", "bob", "bob@x");
     ("1.0", "d3", "c3", "cat", "cat@x"); ("1.2", "d4", "c4", "dan", "dan@x")] !! "1.0"
    = Some ("cat", "cat@x").
Proof.
  apply (proj1 (releaser_history_last_wins _ "1.0")
           [("1.0", "d1", "c1", "ann", "ann@x"); ("1.1", "d2", "c2", "bob", "bob@x")]
           [("1.2", "d4", "c4", "dan", "dan@x")] "d3" "c3").
  - reflexivity.
  - intros entry Hin.
    apply elem_of_cons in Hin as [->|Hin]; [vm_compute; discriminate|].
    by apply elem_of_nil in Hin.
Defined.

(** ** Splitting at the first separator *)

Lemma startswith_app (p t : string) : Str.startswith p (p +:+ t) = true.
Proof.
  induction p as [|c p IH]; [done|].
  rewrite app_cons. simpl. by destruct (ascii_dec c c).
Qed.

Lemma startswith_inv (p s : string) :
  Str.startswith p s = true -> s = p +:+ Str.drop (String.length p) s.
Proof.
  revert s. induction p as [|c p IH]; intros s H; [done|].
  destruct s as [|d s]; [discriminate|]. simpl in H.
  destruct (ascii_dec c d) as [->|]; [|discriminate].
  rewrite app_cons. simpl. f_equal. by apply IH.
Qed.

Lemma find_split_unfold (sep s : string) :
  Str.find_split sep s =
    if Str.startswith sep s then Some (EmptyString, Str.drop (String.length sep) s)
    else match s with
         | EmptyString => None
         | String c r =>
             match Str.find_split sep r with
             | Some (a, b) => Some (String c a, b)
             | None => None
             end
         end.
Proof. by destruct s. Qed.

(** What [find_split] returns is an occurrence of the separator, and no
    occurrence starts earlier. *)
Lemma find_split_Some (sep : string) : forall s a b,
  Str.find_split sep s = Some (a, b) ->
  s = a +:+ sep +:+ b /\
  (forall a' b', s = a' +:+ sep +:+ b' -> String.length a <= String.length a').
Proof.
  induction s as [|c r IH]; intros a b H; rewrite find_split_unfold in H.
  - destruct (Str.startswith sep "") eqn:Hp; [|discriminate].
    injection H as <- <-. split; [by apply startswith_inv | simpl; lia].
  - destruct (Str.startswith sep (String c r)) eqn:Hp.
    + injection H as <- <-. split; [by apply startswith_inv | simpl; lia].
    + destruct (Str.find_split sep r) as [[a1 b1]|] eqn:Hr; [|discriminate].
      injection H as <- <-. destruct (IH _ _ eq_refl) as [-> Hmin].
      split; [done|]. intros a' b' Heq.
      destruct a' as [|c' a'].
      * rewrite app_empty_l in Heq. rewrite Heq, startswith_app in Hp. discriminate.
      * rewrite app_cons in Heq. injection Heq as _ Heq.
        specialize (Hmin _ _ Heq). simpl. lia.
Qed.

Lemma find_split_None (sep : string) : forall s,
  Str.find_split sep s = None -> forall a b, s <> a +:+ sep +:+ b.
Proof.
  induction s as [|c r IH]; intros H a b Heq; rewrite find_split_unfold in H.
  - destruct (Str.startswith sep "") eqn:Hp; [discriminate|].
    destruct a; [|discriminate].
    rewrite app_empty_l in Heq. rewrite Heq, startswith_app in Hp. discriminate.
  - destruct (Str.startswith sep (String c r)) eqn:Hp; [discriminate|].
    destruct (Str.find_split sep r) as [[a1 b1]|] eqn:Hr; [discriminate|].
    destruct a as [|c' a].
    + rewrite app_empty_l in Heq. rewrite Heq, startswith_app in Hp. discriminate.
    + rewrite app_cons in Heq. injection Heq as _ Heq. by apply (IH eq_refl a b).
Qed.

Lemma app_inv_length (a a' x x' : string) :
  a +:+ x = a' +:+ x' -> String.length a = String.length a' -> a = a' /\ x = x'.
Proof.
  revert a'. induction a as [|c a IH]; intros [|c' a'] Heq Hlen; try discriminate.
  - done.
  - rewrite !app_cons in Heq. injection Heq as -> Heq.
    simpl in Hlen. destruct (IH a' Heq) as [-> ->]; [lia | done].
Qed.

(** The first occurrence of the separator is what [find_split] returns. *)
Lemma find_split_first (sep s a b : string) :
  s = a +:+ sep +:+ b ->
  (forall a' b', s = a' +:+ sep +:+ b' -> String.length a <= String.length a') ->
  Str.find_split sep s = Some (a, b).
Proof.
  intros Heq Hmin.
  destruct (Str.find_split sep s) as [[a0 b0]|] eqn:Hf.
  - destruct (find_split_Some _ _ _ _ Hf) as [Heq0 Hmin0].
    pose proof (Hmin _ _ Heq0). pose proof (Hmin0 _ _ Heq).
    rewrite Heq0 in Heq.
    destruct (app_inv_length _ _ _ _ Heq) as [-> Htail]; [lia|].
    destruct (app_inv_length _ _ _ _ Htail) as [_ ->]; done.
  - by destruct (find_split_None _ _ Hf a b).
Qed.

(** ** Text formatter: the description *)

(** C2: with [v] the normalized text, [format_description] returns [v] when
    [v] has no occurrence of a period followed by a space, or when nothing
    follows the first occurrence; otherwise it returns the text before the
    first occurrence, a period, a line feed, a space and the stripped text
    after the occurrence.  The description "A. B" becomes "A.", line feed,
    " B". *)
Theorem format_description_split :
  (forall s : string,
      let v := vcpkgize_string s in
      ((forall a b, v <> a +:+ ". " +:+ b) -> format_description s = v) /\
      (forall a b,
          v = a +:+ ". " +:+ b ->
          (forall a' b', v = a' +:+ ". " +:+ b' -> String.length a <= String.length a') ->
          (b = "" -> format_description s = v) /\
          (b <> "" ->
           format_description s = a +:+ "." +:+ String Str.LF " " +:+ Str.strip b))) /\
  format_description "A. B" = "A." +:+ String Str.LF " B".
Proof.
  split; [|reflexivity].
  intros s v. unfold format_description. fold v. unfold Str.split1. split.
  - intros Hno.
    destruct (Str.find_split ". " v) as [[a b]|] eqn:Hf; [|done].
    apply find_split_Some in Hf as [Heq _]. by destruct (Hno a b).
  - intros a b Heq Hmin.
    rewrite (find_split_first _ _ _ _ Heq Hmin). simpl. split.
    + by intros ->.
    + intros Hb. by destruct b.
Qed.

Lemma format_description_split_witness :
  format_description "Tools for robots" = "Tools for robots" /\
  format_description " Tools.  For <b>robots</b>. Really. "
    = "Tools" +:+ "." +:+ String Str.LF " " +:+ Str.strip "For robots. Really.".
Proof.
  split.
  - apply (proj1 format_description_split "Tools for robots").
    intros a b Heq.
    assert (Str.find_split ". " (vcpkgize_string "Tools for robots") = None)
      as Hnone by reflexivity.
    exact (find_split_None _ _ Hnone a b Heq).
  - apply (proj1 format_description_split " Tools.  For <b>robots</b>. Really. ").
    + reflexivity.
    + intros a' b' Heq.
      assert (Str.find_split ". " (vcpkgize_string " Tools.  For <b>robots</b>. Really. ")
              = Some ("Tools", "For robots. Really.")) as Hsome by reflexivity.
      exact (proj2 (find_split_Some _ _ _ _ Hsome) a' b' Heq).
    + discriminate.
Defined.

(** ** Text formatter: normalization *)

Lemma markup_remover_sub_cons (c : ascii) (r : string) :
  markup_remover_sub (String c r) =
    if ascii_dec c "<"%char then
      match tag_end r with
      | Some r' => markup_remover_sub r'
      | None => String c (markup_remover_sub r)
      end
    else String c (markup_remover_sub r).
Proof.
  simp markup_remover_sub.
  destruct (ascii_dec c "<"%char); simpl; [|reflexivity].
  by destruct (tag_end r).
Qed.

Lemma has_unfold (x c : ascii) (r : string) :
  Str.has x (String c r) = if ascii_dec c x then true else Str.has x r.
Proof. reflexivity. Qed.

Lemma has_cons (x c : ascii) (r : string) :
  Str.has x (String c r) = false -> c <> x /\ Str.has x r = false.
Proof. simpl. by destruct (ascii_dec c x). Qed.

Lemma tag_end_length (r r' : string) :
  tag_end r = Some r' -> String.length r' < String.length r.
Proof.
  revert r'. induction r as [|c r IH]; intros r' H; simpl in H; [discriminate|].
  destruct (ascii_dec c ">"%char); [injection H as <-; simpl; lia|].
  destruct (ascii_dec c Str.LF); [discriminate|].
  specialize (IH _ H). simpl. lia.
Qed.

Lemma tag_end_has (x : ascii) (r r' : string) :
  tag_end r = Some r' -> Str.has x r = false -> Str.has x r' = false.
Proof.
  revert r'. induction r as [|c r IH]; intros r' H Hx; simpl in H; [discriminate|].
  apply has_cons in Hx as [_ Hx].
  destruct (ascii_dec c ">"%char); [by injection H as <-|].
  destruct (ascii_dec c Str.LF); [discriminate|]. by apply IH.
Qed.

Lemma tag_end_None_has (r : string) :
  tag_end r = None -> Str.has Str.LF r = false -> Str.has ">"%char r = false.
Proof.
  induction r as [|c r IH]; intros H Hlf; [done|]. simpl in *.
  destruct (ascii_dec c ">"%char); [discriminate|].
  destruct (ascii_dec c Str.LF); [discriminate|]. by apply IH.
Qed.

Lemma has_None_tag_end (r : string) :
  Str.has ">"%char r = false -> tag_end r = None.
Proof.
  induction r as [|c r IH]; intros H; [done|]. simpl in *.
  destruct (ascii_dec c ">"%char); [discriminate|].
  destruct (ascii_dec c Str.LF); [done|]. by apply IH.
Qed.

(** Induction on strings by length, as [markup_remover_sub] recurses. *)
Lemma string_length_ind (P : string -> Prop) :
  (forall s, (forall t, String.length t < String.length s -> P t) -> P s) ->
  forall s, P s.
Proof.
  intros step s.
  assert (forall n t, String.length t < n -> P t) as H.
  { induction n as [|n IH]; intros t Ht; [lia|].
    apply step. intros u Hu. apply IH. lia. }
  apply (H (S (String.length s))). lia.
Qed.

(** The substitution adds no character. *)
Lemma markup_remover_sub_has (x : ascii) (s : string) :
  Str.has x s = false -> Str.has x (markup_remover_sub s) = false.
Proof.
  induction s as [s IH] using string_length_ind. intros Hx.
  destruct s as [|c r]; [done|].
  rewrite markup_remover_sub_cons.
  apply has_cons in Hx as [Hc Hx].
  assert (Str.has x (String c (markup_remover_sub r)) = false) as Hkeep.
  { simpl. destruct (ascii_dec c x); [done|]. apply IH; [simpl; lia | done]. }
  destruct (ascii_dec c "<"%char); [|done].
  destruct (tag_end r) as [r'|] eqn:E; [|done].
  apply IH; [apply tag_end_length in E; simpl; lia | by apply (tag_end_has _ _ _ E)].
Qed.

(** On a text without line feed, the substitution leaves no tag. *)
Lemma markup_remover_sub_no_tag (s : string) :
  Str.has Str.LF s = false -> no_tag (markup_remover_sub s).
Proof.
  induction s as [s IH] using string_length_ind. intros Hlf.
  destruct s as [|c r]; [done|].
  rewrite markup_remover_sub_cons.
  apply has_cons in Hlf as [Hc Hlf].
  assert (no_tag (markup_remover_sub r)) as Hr by (apply IH; [simpl; lia | done]).
  destruct (ascii_dec c "<"%char) as [->|Hne].
  - destruct (tag_end r) as [r'|] eqn:E.
    + apply IH; [apply tag_end_length in E; simpl; lia | by apply (tag_end_has _ _ _ E)].
    + split; [|done]. intros _.
      by apply markup_remover_sub_has, tag_end_None_has.
  - by split.
Qed.

(** A text without tag is left as it is. *)
Lemma markup_remover_sub_id (s : string) : no_tag s -> markup_remover_sub s = s.
Proof.
  induction s as [|c r IH]; intros H; [done|]. destruct H as [Hc Hr].
  rewrite markup_remover_sub_cons, (IH Hr).
  destruct (ascii_dec c "<"%char) as [->|]; [|done].
  by rewrite (has_None_tag_end _ (Hc eq_refl)).
Qed.

Lemma isspace_ne (x c : ascii) : Str.isspace x = false -> Str.isspace c = true -> c <> x.
Proof. intros Hx Hc ->. congruence. Qed.

Lemma whitespace_sub_from_has (x : ascii) (s : string) : forall in_run,
  Str.isspace x = false -> Str.has x s = false ->
  Str.has x (whitespace_sub_from in_run s) = false.
Proof.
  induction s as [|c r IH]; intros in_run Hx H; [done|].
  apply has_cons in H as [Hc H]. simpl.
  destruct (Str.isspace c) eqn:Ec.
  - destruct in_run; [by apply IH|]. rewrite has_unfold.
    destruct (ascii_dec " "%char x) as [<-|]; [discriminate|]. by apply IH.
  - rewrite has_unfold. destruct (ascii_dec c x); [done|]. by apply IH.
Qed.

Lemma whitespace_sub_from_no_tag (s : string) : forall in_run,
  no_tag s -> no_tag (whitespace_sub_from in_run s).
Proof.
  induction s as [|c r IH]; intros in_run H; [done|]. destruct H as [Hc Hr]. simpl.
  destruct (Str.isspace c) eqn:Ec.
  - destruct in_run; [by apply IH|]. split; [discriminate | by apply IH].
  - split; [|by apply IH]. intros ->.
    apply whitespace_sub_from_has; [reflexivity | by apply Hc].
Qed.

Lemma lstrip_no_tag (s : string) : no_tag s -> no_tag (Str.lstrip s).
Proof.
  induction s as [|c r IH]; intros H; [done|]. simpl.
  destruct (Str.isspace c); [apply IH, H | done].
Qed.

Lemma rstrip_cons (c : ascii) (r : string) :
  Str.rstrip (String c r) = String c (Str.rstrip r) \/ Str.rstrip (String c r) = "".
Proof.
  simpl. destruct (Str.rstrip r); [|by left].
  destruct (Str.isspace c); [by right | by left].
Qed.

Lemma rstrip_has (x : ascii) (s : string) :
  Str.has x s = false -> Str.has x (Str.rstrip s) = false.
Proof.
  induction s as [|c r IH]; intros H; [done|].
  apply has_cons in H as [Hc H].
  destruct (rstrip_cons c r) as [-> | ->]; [|done].
  simpl. destruct (ascii_dec c x); [done|]. by apply IH.
Qed.

Lemma rstrip_no_tag (s : string) : no_tag s -> no_tag (Str.rstrip s).
Proof.
  induction s as [|c r IH]; intros H; [done|]. destruct H as [Hc Hr].
  destruct (rstrip_cons c r) as [-> | ->]; [|done].
  split; [|by apply IH]. intros E. by apply rstrip_has, Hc.
Qed.

Lemma whitespace_sub_from_squeezed (s : string) : forall in_run,
  squeezed (whitespace_sub_from in_run s) /\
  (in_run = true -> head_space (whitespace_sub_from in_run s) = false).
Proof.
  induction s as [|c r IH]; intros in_run; [done|]. simpl.
  destruct (Str.isspace c) eqn:Ec.
  - destruct in_run; [apply IH|].
    split; [|discriminate]. split; [|apply IH].
    intros _. split; [done | by apply IH].
  - split; [|done]. split; [|apply IH]. simpl. congruence.
Qed.

Lemma whitespace_sub_from_id (s : string) : forall in_run,
  squeezed s -> (in_run = true -> head_space s = false) ->
  whitespace_sub_from in_run s = s.
Proof.
  induction s as [|c r IH]; intros in_run H Hrun; [done|].
  destruct H as [Hc Hr]. simpl in *.
  destruct (Str.isspace c) eqn:Ec.
  - destruct (Hc eq_refl) as [-> Hhead].
    destruct in_run; [by specialize (Hrun eq_refl)|].
    by rewrite IH.
  - by rewrite IH.
Qed.

Lemma lstrip_squeezed (s : string) : squeezed s -> squeezed (Str.lstrip s).
Proof.
  induction s as [|c r IH]; intros H; [done|]. simpl.
  destruct (Str.isspace c); [apply IH, H | done].
Qed.

Lemma rstrip_head_space (s : string) :
  head_space s = false -> head_space (Str.rstrip s) = false.
Proof.
  destruct s as [|c r]; intros H; [done|].
  by destruct (rstrip_cons c r) as [-> | ->].
Qed.

Lemma rstrip_squeezed (s : string) : squeezed s -> squeezed (Str.rstrip s).
Proof.
  induction s as [|c r IH]; intros H; [done|]. destruct H as [Hc Hr].
  destruct (rstrip_cons c r) as [-> | ->]; [|done].
  split; [|by apply IH]. intros E. destruct (Hc E) as [-> Hhead].
  split; [done | by apply rstrip_head_space].
Qed.

Lemma lstrip_head_space (s : string) : head_space (Str.lstrip s) = false.
Proof.
  induction s as [|c r IH]; [done|]. simpl.
  by destruct (Str.isspace c) eqn:Ec.
Qed.

Lemma lstrip_id (s : string) : head_space s = false -> Str.lstrip s = s.
Proof. destruct s as [|c r]; [done|]. simpl. by intros ->. Qed.

Lemma rstrip_rstrip (s : string) : Str.rstrip (Str.rstrip s) = Str.rstrip s.
Proof.
  induction s as [|c r IH]; [done|]. simpl.
  destruct (Str.rstrip r) as [|d r'] eqn:E.
  - destruct (Str.isspace c) eqn:Ec; [done|]. simpl. by rewrite Ec.
  - change (Str.rstrip (String c (String d r')))
      with (match Str.rstrip (String d r') with
            | EmptyString => if Str.isspace c then EmptyString else String c EmptyString
            | r'' => String c r''
            end).
    by rewrite IH.
Qed.

Lemma strip_strip (s : string) : Str.strip (Str.strip s) = Str.strip s.
Proof.
  unfold Str.strip.
  rewrite (lstrip_id (Str.rstrip (Str.lstrip s))).
  - apply rstrip_rstrip.
  - apply rstrip_head_space, lstrip_head_space.
Qed.

(** ** Substring test *)

Lemma contains_unfold (needle hay : string) :
  Str.contains needle hay =
    Str.startswith needle hay ||
    match hay with
    | EmptyString => false
    | String _ r => Str.contains needle r
    end.
Proof. by destruct hay. Qed.

Lemma contains_occurs_in (needle hay : string) :
  Str.contains needle hay = true <-> occurs_in needle hay.
Proof.
  split.
  - induction hay as [|c r IH]; rewrite contains_unfold; intros H;
      apply orb_true_iff in H as [H|H].
    + exists "", (Str.drop (String.length needle) ""). by apply startswith_inv.
    + discriminate.
    + exists "", (Str.drop (String.length needle) (String c r)). by apply startswith_inv.
    + destruct (IH H) as (a & b & ->). by exists (String c a), b.
  - intros (a & b & ->). induction a as [|c a IH]; rewrite contains_unfold.
    + by rewrite app_empty_l, startswith_app.
    + rewrite app_cons, IH. apply orb_true_r.
Qed.

Lemma contains_not_occurs_in (needle hay : string) :
  Str.contains needle hay = false <-> ~ occurs_in needle hay.
Proof.
  rewrite <- contains_occurs_in. by destruct (Str.contains needle hay).
Qed.

(** ** Reasoning about computations *)

Lemma run_bind {A B : Type} (m : M A) (f : A -> M B) (w : world) :
  (m ≫= f) w =
    match m w with
    | (Ok a, w') => f a w'
    | (Raise e, w') => (Raise e, w')
    end.
Proof. reflexivity. Qed.

(** Unfolds the hook down to its lookups, leaving the tests on the url and
    the string operations as they are. *)
Ltac run_hook :=
  cbv [get_subs_hook get_build_type mbind mret M_bind M_ret call error raise
       rosdistro_get_index rosdistro_get_distribution_file release_repository_url];
  cbn [subs calls].

Section Keeps.
Context (J : world -> Prop) (E : exn -> Prop).

Lemma keeps_ret {A : Type} (a : A) : keeps J E (mret a).
Proof. intros w Hw. by split. Qed.

Lemma keeps_bind {A B : Type} (m : M A) (f : A -> M B) :
  keeps J E m -> (forall a, keeps J E (f a)) -> keeps J E (m ≫= f).
Proof.
  intros Hm Hf w Hw. rewrite run_bind.
  destruct (Hm w Hw) as [Hw' He]. destruct (m w) as [[a|e] w']; simpl in *.
  - by apply Hf.
  - split; [done|]. intros e' [= <-]. by apply He.
Qed.

Lemma keeps_raise {A : Type} (e : exn) : E e -> keeps J E (@raise A e).
Proof. intros He w Hw. split; [done|]. by intros e' [= <-]. Qed.

Lemma keeps_lift {A : Type} (r : result A) :
  (forall e, r = Raise e -> E e) -> keeps J E (lift r).
Proof. intros Hr w Hw. by split. Qed.

Lemma keeps_get_subs : keeps J E get_subs.
Proof. intros w Hw. by split. Qed.

Lemma keeps_getitem (key : string) : E (KeyError key) -> keeps J E (getitem key).
Proof.
  intros He w Hw. unfold getitem.
  destruct (subs w !! key); split; try done. by intros e' [= <-].
Qed.

Lemma keeps_setitem (key value : string) :
  (forall w, J w -> J (World (<[key := value]> (subs w)) (calls w))) ->
  keeps J E (setitem key value).
Proof. intros Hset w Hw. split; [by apply Hset | done]. Qed.

Lemma keeps_call (ev : event) :
  (forall w, J w -> J (World (subs w) (ev :: calls w))) -> keeps J E (call ev).
Proof. intros Hcall w Hw. split; [by apply Hcall | done]. Qed.

Lemma keeps_if {A : Type} (b : bool) (m1 m2 : M A) :
  keeps J E m1 -> keeps J E m2 -> keeps J E (if b then m1 else m2).
Proof. by destruct b. Qed.

End Keeps.

Lemma index_from_end_raise {A : Type} (l : list A) (k : nat) (e : exn) :
  index_from_end l k = Raise e -> e = IndexError.
Proof.
  unfold index_from_end. destruct (length l <? k); [by intros [= <-]|].
  destruct (nth_error l (length l - k)); [discriminate | by intros [= <-]].
Qed.

Lemma generate_tag_name_raise (subs : Subs) (e : exn) :
  generate_tag_name subs = Raise e -> exists key, e = KeyError key.
Proof.
  rewrite generate_tag_name_lookups.
  repeat (case_match; [|intros [= <-]; eauto]). discriminate.
Qed.

(** The statements of [get_subs_hook] after the loop over the sources. *)
Lemma keeps_coordinates (J : world -> Prop) (E : exn -> Prop) (release_url : string) :
  (forall key value w, key <> "git_source" ->
     J w -> J (World (<[key := value]> (subs w)) (calls w))) ->
  E IndexError -> (forall key, E (KeyError key)) ->
  keeps J E
    (user_name ← lift (index_from_end (Str.split_char "/"%char release_url) 2);
     setitem "user_name" user_name;;
     repo_name ← lift (index_from_end (Str.split_char "/"%char release_url) 1);
     setitem "repo_name" repo_name;;
     repo_name ← getitem "repo_name";
     (if Str.contains ".git" repo_name
      then repo_name ← getitem "repo_name"; setitem "repo_name" (Str.drop_last 4 repo_name)
      else mret tt);;
     subs ← get_subs;
     tag_name ← lift (generate_tag_name subs);
     setitem "tag_name" tag_name;;
     get_subs).
Proof.
  intros Hset Hindex Hkey.
  repeat (apply keeps_bind; [|intros ?]);
    try (apply keeps_setitem; intros; by apply Hset);
    try (apply keeps_lift; intros e He; apply index_from_end_raise in He as ->; done);
    try (by apply keeps_getitem);
    try apply keeps_get_subs.
  - apply keeps_if; [|apply keeps_ret].
    apply keeps_bind; [by apply keeps_getitem|].
    intros ?. apply keeps_setitem. intros. by apply Hset.
  - apply keeps_lift. intros e He.
    apply generate_tag_name_raise in He as [key ->]. apply Hkey.
Qed.

(** ** Release coordinate resolver and substitution hook *)

Lemma select_git_source_none (release_url : string) (w : world) : forall sources,
  (forall g, g ∈ sources -> ~ occurs_in g release_url) ->
  select_git_source sources release_url w
    = (Raise (SystemExit (unsupported_release_url release_url)), w).
Proof.
  induction sources as [|g sources IH]; intros H; [done|]. simpl.
  assert (Str.contains g release_url = false) as ->.
  { apply contains_not_occurs_in, H, list_elem_of_here. }
  apply IH. intros h Hh. by apply H, list_elem_of_further.
Qed.

Lemma select_git_source_first (release_url g : string) (later : list string) (w : world) :
  forall earlier,
  (forall h, h ∈ earlier -> ~ occurs_in h release_url) ->
  occurs_in g release_url ->
  select_git_source (earlier ++ g :: later) release_url w
    = (Ok tt, World (<["git_source" := g]> (subs w)) (calls w)).
Proof.
  induction earlier as [|h earlier IH]; intros H Hg; simpl.
  - by apply contains_occurs_in in Hg as ->.
  - assert (Str.contains h release_url = false) as ->.
    { apply contains_not_occurs_in, H, list_elem_of_here. }
    apply IH; [|done]. intros h' Hh'. by apply H, list_elem_of_further.
Qed.

Lemma keeps_select (J : world -> Prop) (E : exn -> Prop) (release_url : string) :
  (forall value w, J w -> J (World (<["git_source" := value]> (subs w)) (calls w))) ->
  E (SystemExit (unsupported_release_url release_url)) ->
  forall sources, keeps J E (select_git_source sources release_url).
Proof.
  intros Hset Hexit. induction sources as [|g sources IH]; simpl.
  - by apply keeps_raise.
  - apply keeps_if; [|done]. apply keeps_setitem. intros. by apply Hset.
Qed.

Lemma exit_messages_differ (release_url build_type : string) :
  unsupported_release_url release_url <> unsupported_build_type build_type.
Proof. discriminate. Qed.

(** The hook, once the build type and the lookups in the index are
    through: the loop over the sources runs next, in the world where both
    calls are recorded. *)
Lemma get_subs_hook_lookup (index : Index) (package : Package) (ros_distro : string)
    (w : world) (distribution_file : DistributionFile) (release_url : string) :
  build_type package = "ament_cmake" ->
  index !! ros_distro = Some distribution_file ->
  distribution_file !! package_name package = Some release_url ->
  exists tail : M Subs,
    (forall J E,
        (forall key value w, key <> "git_source" ->
           J w -> J (World (<[key := value]> (subs w)) (calls w))) ->
        E IndexError -> (forall key, E (KeyError key)) -> keeps J E tail) /\
    get_subs_hook index package ros_distro w
      = (select_git_source vcpkg_support_git_sources release_url ≫= fun _ => tail)
          (World (subs w) (GetDistributionFile ros_distro :: GetIndex :: calls w)).
Proof.
  intros Hbt Hindex Hurl.
  eexists. split; [intros J E; apply (keeps_coordinates J E release_url)|].
  run_hook. by rewrite Hbt, Hindex, Hurl.
Qed.

(** C6: the url is tested against ["github"], ["gitlab"], ["bitbucket"] in
    this order, by substring.  When none of them occurs in the url the hook
    exits with the message about the unsupported url, having written no
    entry of [subs]; otherwise [git_source] is the first source of the list
    that occurs in the url, and the hook does not exit with that message. *)
Theorem select_git_source_first_match (index : Index) (package : Package)
    (ros_distro : string) (w : world) (distribution_file : DistributionFile)
    (release_url : string) :
  build_type package = "ament_cmake" ->
  index !! ros_distro = Some distribution_file ->
  distribution_file !! package_name package = Some release_url ->
  vcpkg_support_git_sources = ["github"; "gitlab"; "bitbucket"] /\
  ((forall g, g ∈ vcpkg_support_git_sources -> ~ occurs_in g release_url) ->
     get_subs_hook index package ros_distro w
       = (Raise (SystemExit (unsupported_release_url release_url)),
          World (subs w) (GetDistributionFile ros_distro :: GetIndex :: calls w))) /\
  (forall earlier g later,
     vcpkg_support_git_sources = earlier ++ g :: later ->
     (forall h, h ∈ earlier -> ~ occurs_in h release_url) ->
     occurs_in g release_url ->
     subs (get_subs_hook index package ros_distro w).2 !! "git_source" = Some g /\
     (get_subs_hook index package ros_distro w).1
       <> Raise (SystemExit (unsupported_release_url release_url))).
Proof.
  intros Hbt Hindex Hurl.
  destruct (get_subs_hook_lookup index package ros_distro w _ _ Hbt Hindex Hurl)
    as (tail & Htail & ->).
  split; [reflexivity|]. split.
  - intros Hnone. rewrite run_bind. by rewrite select_git_source_none.
  - intros earlier g later -> Hearlier Hg.
    rewrite run_bind, select_git_source_first by done.
    destruct (Htail (fun w' => subs w' !! "git_source" = Some g)
                (fun e => e <> SystemExit (unsupported_release_url release_url)))
      with (w := World (<["git_source" := g]> (subs w))
                   (GetDistributionFile ros_distro :: GetIndex :: calls w))
      as [Hsubs Hexn]; try done.
    + intros key value w' Hkey Hw'. simpl. by rewrite lookup_insert_ne.
    + apply lookup_insert_eq.
    + split; [done|]. intros Heq. by apply (Hexn _ Heq).
Qed.

Lemma select_git_source_first_match_witness :
  get_subs_hook (sample_index "https://example.org/acme/widget") sample_package "humble"
      (World sample_subs [])
    = (Raise (SystemExit (unsupported_release_url "https://example.org/acme/widget")),
       World sample_subs [GetDistributionFile "humble"; GetIndex]) /\
  subs (get_subs_hook (sample_index "https://gitlab.com/github/widget") sample_package
          "humble" (World sample_subs [])).2 !! "git_source" = Some "github".
Proof.
  split.
  - apply (select_git_source_first_match
             (sample_index "https://example.org/acme/widget") sample_package "humble"
             (World sample_subs []) {[ "widget" := "https://example.org/acme/widget" ]}
             "https://example.org/acme/widget"); try reflexivity.
    intros g Hg. apply contains_not_occurs_in.
    repeat (apply elem_of_cons in Hg as [->|Hg]; [reflexivity|]).
    by apply elem_of_nil in Hg.
  - apply (select_git_source_first_match
             (sample_index "https://gitlab.com/github/widget") sample_package "humble"
             (World sample_subs []) {[ "widget" := "https://gitlab.com/github/widget" ]}
             "https://gitlab.com/github/widget" eq_refl eq_refl eq_refl)
      with (earlier := []) (later := ["gitlab"; "bitbucket"]).
    + reflexivity.
    + intros h Hh. by apply elem_of_nil in Hh.
    + by apply contains_occurs_in.
Defined.

(** C8: the build type is the first thing the hook checks, on the dict
    [subs] it is given, whatever the caller has put in it.  For a build
    type other than ["ament_cmake"] the hook exits with the message about
    the build type and leaves the world as it found it: no call to the
    index was made and the hook has written no entry of [subs].  For
    ["ament_cmake"] the hook goes on to query the index and never exits
    with that message. *)
Theorem get_subs_hook_build_type_first (index : Index) (package : Package)
    (ros_distro : string) (w : world) :
  (build_type package <> "ament_cmake" ->
     get_subs_hook index package ros_distro w
       = (Raise (SystemExit (unsupported_build_type (build_type package))), w)) /\
  (build_type package = "ament_cmake" ->
     (exists later,
        calls (get_subs_hook index package ros_distro w).2 = later ++ GetIndex :: calls w) /\
     (forall bt, (get_subs_hook index package ros_distro w).1
                   <> Raise (SystemExit (unsupported_build_type bt)))).
Proof.
  split.
  - intros Hbt. apply String.eqb_neq in Hbt. run_hook. by rewrite Hbt.
  - intros Hbt.
    destruct (index !! ros_distro) as [distribution_file|] eqn:Hindex.
    2: { run_hook. rewrite Hbt, Hindex. simpl. split; [|done].
         by exists [GetDistributionFile ros_distro]. }
    destruct (distribution_file !! package_name package) as [release_url|] eqn:Hurl.
    2: { run_hook. rewrite Hbt, Hindex, Hurl. simpl. split; [|done].
         by exists [GetDistributionFile ros_distro]. }
    destruct (get_subs_hook_lookup index package ros_distro w _ _ Hbt Hindex Hurl)
      as (tail & Htail & ->).
    set (J := fun w' : world => exists later, calls w' = later ++ GetIndex :: calls w).
    set (E := fun e : exn => forall bt, e <> SystemExit (unsupported_build_type bt)).
    assert (keeps J E (select_git_source vcpkg_support_git_sources release_url
                         ≫= fun _ => tail)) as Hkeeps.
    { apply keeps_bind.
      - apply keeps_select; [by intros value w' Hw'|].
        intros bt Heq. apply (exit_messages_differ release_url bt). congruence.
      - intros _. apply Htail; [by intros key value w' _ Hw' | done | done]. }
    destruct (Hkeeps (World (subs w) (GetDistributionFile ros_distro :: GetIndex :: calls w)))
      as [Hcalls Hexn].
    { by exists [GetDistributionFile ros_distro]. }
    split; [done|]. intros bt Heq. by apply (Hexn _ Heq bt).
Qed.

Lemma get_subs_hook_build_type_first_witness :
  get_subs_hook (sample_index "https://github.com/acme/widget.git")
      {| package_name := "widget"; build_type := "cmake" |} "humble" (World sample_subs [])
    = (Raise (SystemExit (unsupported_build_type "cmake")), World sample_subs []) /\
  (exists later,
     calls (get_subs_hook (sample_index "https://github.com/acme/widget.git")
              sample_package "humble" (World sample_subs [])).2 = later ++ [GetIndex]).
Proof.
  split.
  - apply (proj1 (get_subs_hook_build_type_first _
                    {| package_name := "widget"; build_type := "cmake" |} _ _)).
    discriminate.
  - apply (proj2 (get_subs_hook_build_type_first _ sample_package _ (World sample_subs []))).
    reflexivity.
Defined.

(** C1: for the url "https://github.com/acme/widget.git" the hook stores
    "github", "acme" and "widget".  For "https://github.com/acme/acme.github.io"
    the last segment "acme.github.io" does not end with ".git", yet the hook
    stores it without its last four characters, since the test is whether
    ".git" occurs in the segment. *)
Theorem repo_name_stripped_on_inner_git :
  (let out := get_subs_hook (sample_index "https://github.com/acme/widget.git")
                sample_package "humble" (World sample_subs []) in
   subs out.2 !! "git_source" = Some "github" /\
   subs out.2 !! "user_name" = Some "acme" /\
   subs out.2 !! "repo_name" = Some "widget") /\
  (let out := get_subs_hook (sample_index "https://github.com/acme/acme.github.io")
                sample_package "humble" (World sample_subs []) in
   index_from_end (Str.split_char "/"%char "https://github.com/acme/acme.github.io") 2
     = Ok "acme" /\
   index_from_end (Str.split_char "/"%char "https://github.com/acme/acme.github.io") 1
     = Ok "acme.github.io" /\
   ~ ends_with ".git" "acme.github.io" /\
   (exists returned, out.1 = Ok returned) /\
   subs out.2 !! "user_name" = Some "acme" /\
   subs out.2 !! "repo_name" = Some "acme.githu").
Proof.
  split; [by vm_compute|].
  repeat split; try by vm_compute.
  - intros [a H].
    repeat (destruct a as [|? a]; [discriminate|]; rewrite app_cons in H; injection H as _ H).
    destruct a; discriminate.
  - vm_compute. eauto.
Qed.

(** * Further properties *)

(** ** Dependency flattener *)

Lemma format_depends_from_acc (resolved_deps : gmap string (list string))
    (depends : list Dependency) : forall formatted,
  format_depends_from formatted depends resolved_deps =
    match format_depends depends resolved_deps with
    | Ok rest => Ok (formatted ++ rest)
    | Raise e => Raise e
    end.
Proof.
  unfold format_depends.
  induction depends as [|d depends IH]; intros formatted; simpl.
  - by rewrite app_nil_r.
  - destruct (resolved_deps !! name d) as [names|]; [|done].
    rewrite (IH (append_each formatted names)), (IH (append_each [] names)).
    destruct (format_depends_from [] depends resolved_deps) as [rest|e]; [|done].
    by rewrite !append_each_app, app_assoc.
Qed.

(** X1: flattening a concatenation of two dependency lists is flattening
    each and concatenating the results; an exception of the first list comes
    first. *)
Theorem format_depends_app (resolved_deps : gmap string (list string))
    (depends1 depends2 : list Dependency) :
  format_depends (depends1 ++ depends2) resolved_deps =
    match format_depends depends1 resolved_deps with
    | Raise e => Raise e
    | Ok formatted1 =>
        match format_depends depends2 resolved_deps with
        | Ok formatted2 => Ok (formatted1 ++ formatted2)
        | Raise e => Raise e
        end
    end.
Proof.
  induction depends1 as [|d depends1 IH].
  - simpl. by destruct (format_depends depends2 resolved_deps).
  - unfold format_depends at 1 2. simpl.
    destruct (resolved_deps !! name d) as [names|]; [|done].
    rewrite !format_depends_from_acc, IH.
    destruct (format_depends depends1 resolved_deps) as [formatted1|]; [|done].
    destruct (format_depends depends2 resolved_deps) as [formatted2|]; [|done].
    by rewrite app_assoc.
Qed.

(** X2: the exception names the first dependency without entry: when all
    dependencies before [d] have an entry and [d] has none, the [KeyError]
    is that of the name of [d], whatever follows. *)
Theorem format_depends_first_missing (resolved_deps : gmap string (list string))
    (before after : list Dependency) (d : Dependency) :
  (forall d', d' ∈ before -> is_Some (resolved_deps !! name d')) ->
  resolved_deps !! name d = None ->
  format_depends (before ++ d :: after) resolved_deps = Raise (KeyError (name d)).
Proof.
  intros Hbefore Hd.
  destruct (entries_of_total resolved_deps before Hbefore) as [resolved Hres].
  unfold format_depends.
  revert Hres. generalize (@nil string). revert resolved.
  induction before as [|d0 before IH]; intros resolved formatted Hres; simpl.
  - by rewrite Hd.
  - apply Forall2_cons_inv_l in Hres as (names & resolved' & Hd0 & Hrest & ->).
    rewrite Hd0. apply (IH (fun d' Hin => Hbefore d' (list_elem_of_further _ _ _ Hin)) _ _ Hrest).
Qed.

Lemma format_depends_first_missing_witness :
  format_depends [{| name := "B" |}; {| name := "X" |}; {| name := "Y" |}; {| name := "A" |}]
    sample_resolved = Raise (KeyError "X").
Proof.
  apply (format_depends_first_missing sample_resolved [{| name := "B" |}]
           [{| name := "Y" |}; {| name := "A" |}] {| name := "X" |}).
  - intros d' Hd'. apply elem_of_cons in Hd' as [->|Hd']; [vm_compute; eauto|].
    by apply elem_of_nil in Hd'.
  - reflexivity.
Defined.

Lemma elem_of_concat_entries (resolved_deps : gmap string (list string)) (x : string) :
  forall depends resolved,
  entries_of resolved_deps depends resolved ->
  x ∈ concat resolved <->
  exists d names, d ∈ depends /\ resolved_deps !! name d = Some names /\ x ∈ names.
Proof.
  induction depends as [|d depends IH]; intros resolved H.
  - apply Forall2_nil_inv_l in H as ->. simpl. split.
    + intros Hx. by apply elem_of_nil in Hx.
    + intros (d & names & Hd & _). by apply elem_of_nil in Hd.
  - apply Forall2_cons_inv_l in H as (names & resolved' & Hd & Hrest & ->).
    simpl. rewrite elem_of_app, (IH _ Hrest). split.
    + intros [Hx | (d' & names' & Hin & Hlook & Hx)].
      * exists d, names. split; [apply list_elem_of_here | done].
      * exists d', names'. split; [by apply list_elem_of_further | done].
    + intros (d' & names' & Hin & Hlook & Hx).
      apply elem_of_cons in Hin as [->|Hin].
      * left. congruence.
      * right. eauto.
Qed.

(** X3: when [format_depends] returns, a name is in the result exactly when
    it is in the entry of one of the dependencies: nothing is invented and
    nothing is lost. *)
Theorem format_depends_elem_of (resolved_deps : gmap string (list string))
    (depends : list Dependency) (formatted : list string) (x : string) :
  format_depends depends resolved_deps = Ok formatted ->
  x ∈ formatted <->
  exists d names, d ∈ depends /\ resolved_deps !! name d = Some names /\ x ∈ names.
Proof.
  intros H.
  assert (forall d, d ∈ depends -> is_Some (resolved_deps !! name d)) as Hall.
  { intros d Hd. destruct (resolved_deps !! name d) eqn:E; [eauto|].
    destruct (format_depends_from_missing resolved_deps depends [] d Hd E) as [k Hk].
    unfold format_depends in H. congruence. }
  destruct (entries_of_total resolved_deps depends Hall) as [resolved Hres].
  unfold format_depends in H.
  rewrite (format_depends_from_entries _ _ _ _ Hres) in H. injection H as <-.
  by apply elem_of_concat_entries.
Qed.

Lemma format_depends_elem_of_witness :
  "a2" ∈ ["a1"; "a2"; "b1"] <->
  exists d names, d ∈ [{| name := "A" |}; {| name := "B" |}] /\
    sample_resolved !! name d = Some names /\ "a2" ∈ names.
Proof.
  apply (format_depends_elem_of sample_resolved [{| name := "A" |}; {| name := "B" |}]).
  reflexivity.
Defined.

(** ** Tag name synthesizer *)

(** X4: [generate_tag_name] returns exactly when [Package], [Version], [Inc]
    and [Distribution] are all keys of the dict; otherwise it raises the
    [KeyError] of the first of them, in this order, that is missing. *)
Theorem generate_tag_name_key_error (subs : Subs) :
  ((exists tag_name, generate_tag_name subs = Ok tag_name) <->
   is_Some (subs !! "Package") /\ is_Some (subs !! "Version") /\
   is_Some (subs !! "Inc") /\ is_Some (subs !! "Distribution")) /\
  (subs !! "Package" = None -> generate_tag_name subs = Raise (KeyError "Package")) /\
  (is_Some (subs !! "Package") -> subs !! "Version" = None ->
     generate_tag_name subs = Raise (KeyError "Version")) /\
  (is_Some (subs !! "Package") -> is_Some (subs !! "Version") -> subs !! "Inc" = None ->
     generate_tag_name subs = Raise (KeyError "Inc")) /\
  (is_Some (subs !! "Package") -> is_Some (subs !! "Version") ->
   is_Some (subs !! "Inc") -> subs !! "Distribution" = None ->
     generate_tag_name subs = Raise (KeyError "Distribution")).
Proof.
  rewrite generate_tag_name_lookups.
  destruct (subs !! "Package") as [p|], (subs !! "Version") as [v|],
    (subs !! "Inc") as [i|], (subs !! "Distribution") as [d|];
    (split; [split; [intros [t Ht]; try discriminate; eauto
                    | intros (Hp & Hv & Hi & Hd); eauto;
                      try (by destruct Hp); try (by destruct Hv);
                      try (by destruct Hi); try (by destruct Hd)]
            | repeat split; intros; try done;
              repeat match goal with H : is_Some None |- _ => by destruct H end]).
Qed.

Lemma generate_tag_name_key_error_witness :
  generate_tag_name (delete "Inc" sample_subs) = Raise (KeyError "Inc").
Proof.
  destruct (generate_tag_name_key_error (delete "Inc" sample_subs)) as (_ & _ & _ & H & _).
  apply H; [vm_compute; eauto | vm_compute; eauto | reflexivity].
Defined.

(** ** Releaser history *)

Section DictUpdate.
Context {V : Type}.

Lemma dict_update_cons (m : gmap string V) (kv : string * V) (pairs : list (string * V)) :
  dict_update m (kv :: pairs) = dict_update (<[kv.1 := kv.2]> m) pairs.
Proof. reflexivity. Qed.

(** A lookup after an update finds the pair of the update if there is one,
    and the earlier value otherwise. *)
Lemma dict_update_lookup (pairs : list (string * V)) : forall (m : gmap string V) k,
  dict_update m pairs !! k =
    match dict pairs !! k with
    | Some x => Some x
    | None => m !! k
    end.
Proof.
  unfold dict.
  induction pairs as [|kv pairs IH]; intros m k.
  - unfold dict_update. simpl. by rewrite lookup_empty.
  - rewrite !dict_update_cons, (IH (<[kv.1 := kv.2]> m)), (IH (<[kv.1 := kv.2]> ∅)).
    destruct (dict_update ∅ pairs !! k); [done|].
    destruct (decide (kv.1 = k)) as [<-|Hne].
    + by rewrite !lookup_insert_eq.
    + by rewrite !lookup_insert_ne, lookup_empty.
Qed.

Lemma dict_update_app (m : gmap string V) (pairs1 pairs2 : list (string * V)) :
  dict_update m (pairs1 ++ pairs2) = dict_update (dict_update m pairs1) pairs2.
Proof. apply fold_left_app. Qed.

Lemma dict_lookup_Some (pairs : list (string * V)) (k : string) (x : V) :
  dict pairs !! k = Some x -> (k, x) ∈ pairs.
Proof.
  induction pairs as [|[k0 x0] pairs IH] using rev_ind; intros H.
  - unfold dict, dict_update in H. simpl in H. by rewrite lookup_empty in H.
  - unfold dict in *. rewrite dict_update_app in H.
    rewrite elem_of_app. unfold dict_update at 1 in H. simpl in H.
    destruct (decide (k0 = k)) as [<-|Hne].
    + rewrite lookup_insert_eq in H. injection H as <-.
      right. apply list_elem_of_here.
    + rewrite lookup_insert_ne in H by done. left. by apply IH.
Qed.

Lemma dict_lookup_is_Some (pairs : list (string * V)) (k : string) :
  is_Some (dict pairs !! k) <-> exists x, (k, x) ∈ pairs.
Proof.
  split.
  - intros [x Hx]. exists x. by apply dict_lookup_Some.
  - intros [x Hx]. apply list_elem_of_split in Hx as (before & after & ->).
    unfold dict. rewrite dict_update_app, dict_update_cons, dict_update_lookup.
    destruct (dict after !! k); [eauto|]. simpl. rewrite lookup_insert_eq. eauto.
Qed.

Lemma dict_update_size (pairs : list (string * V)) : forall m : gmap string V,
  size (dict_update m pairs) <= size m + length pairs.
Proof.
  induction pairs as [|kv pairs IH]; intros m.
  - unfold dict_update. simpl. lia.
  - rewrite dict_update_cons. specialize (IH (<[kv.1 := kv.2]> m)).
    assert (size (<[kv.1 := kv.2]> m) <= S (size m)).
    { destruct (m !! kv.1) as [x|] eqn:E.
      - rewrite <- (insert_delete_id m kv.1 x E) at 2.
        rewrite <- insert_delete_eq.
        rewrite !map_size_insert_None by apply lookup_delete_eq. lia.
      - rewrite map_size_insert_None by done. lia. }
    simpl. lia.
Qed.

End DictUpdate.

Lemma releaser_pair_elem_of (changelogs : list changelog) (v n e : string) :
  (v, (n, e)) ∈ map (fun '(v, _, _, n, e) => (v, (n, e))) changelogs <->
  exists d c, (v, d, c, n, e) ∈ changelogs.
Proof.
  rewrite list_elem_of_fmap. split.
  - intros ([[[[v' d] c] n'] e'] & [= -> -> ->] & Hin). eauto.
  - intros (d & c & Hin). by exists (v, d, c, n, e).
Qed.

(** X5: the versions of the releaser history are the versions of the
    changelog entries, and the history has at most as many versions as the
    changelog has entries. *)
Theorem releaser_history_versions (changelogs : list changelog) :
  (forall v, is_Some (releaser_history changelogs !! v) <->
             exists entry, entry ∈ changelogs /\ version entry = v) /\
  size (releaser_history changelogs) <= length changelogs.
Proof.
  unfold releaser_history. split.
  - intros v. rewrite dict_lookup_is_Some. split.
    + intros [[n e] Hin]. apply releaser_pair_elem_of in Hin as (d & c & Hin).
      by exists (v, d, c, n, e).
    + intros ([[[[v' d] c] n] e] & Hin & <-). exists (n, e).
      apply releaser_pair_elem_of. eauto.
  - unfold dict.
    pose proof (dict_update_size
                  (map (fun '(v, _, _, n, e) => (v, (n, e))) changelogs) ∅) as H.
    by rewrite map_size_empty, length_map in H.
Qed.

(** X6: a name and an email recorded for a version are those of a changelog
    entry of that version. *)
Theorem releaser_history_from_entry (changelogs : list changelog) (v n e : string) :
  releaser_history changelogs !! v = Some (n, e) ->
  exists d c, (v, d, c, n, e) ∈ changelogs.
Proof.
  intros H. apply dict_lookup_Some in H. by apply releaser_pair_elem_of.
Qed.

Lemma releaser_history_from_entry_witness :
  exists d c, (("1.0", d, c, "cat", "cat@x") : changelog)
    ∈ [("1.0", "d1", "c1", "ann", "ann@x"); ("1.0", "d3", "c3", "cat", "cat@x")].
Proof.
  apply (releaser_history_from_entry
           [("1.0", "d1", "c1", "ann", "ann@x"); ("1.0", "d3", "c3", "cat", "cat@x")]).
  reflexivity.
Defined.

(** X7: the history of two changelogs put one after the other is the
    history of the second, completed by the history of the first for the
    versions the second does not have. *)
Theorem releaser_history_app (changelogs1 changelogs2 : list changelog) (v : string) :
  releaser_history (changelogs1 ++ changelogs2) !! v =
    match releaser_history changelogs2 !! v with
    | Some releaser => Some releaser
    | None => releaser_history changelogs1 !! v
    end.
Proof.
  unfold releaser_history, dict at 1.
  by rewrite map_app, dict_update_app, dict_update_lookup.
Qed.

(** ** Text formatter: shape of the normalized text *)

Lemma squeezed_app_r (a t : string) : squeezed (a +:+ t) -> squeezed t.
Proof.
  induction a as [|c a IH]; [done|]. rewrite app_cons. intros [_ H]. by apply IH.
Qed.

Lemma squeezed_has (t : string) (c : ascii) :
  squeezed t -> Str.has c t = true -> Str.isspace c = true -> c = " "%char.
Proof.
  induction t as [|d t IH]; intros Hsq Hc Hsp; [discriminate|].
  destruct Hsq as [Hd Hsq]. rewrite has_unfold in Hc.
  destruct (ascii_dec d c) as [->|]; [by destruct (Hd Hsp) | by apply IH].
Qed.

Lemma squeezed_no_double_space (t : string) : squeezed t -> ~ occurs_in "  " t.
Proof.
  intros Hsq (a & b & ->). apply squeezed_app_r in Hsq.
  destruct Hsq as [H _]. by destruct (H eq_refl).
Qed.

Lemma vcpkgize_string_squeezed (s : string) : squeezed (vcpkgize_string s).
Proof. apply rstrip_squeezed, lstrip_squeezed, whitespace_sub_from_squeezed. Qed.

(** X8: in the normalized text every whitespace character is a space, no
    two spaces are adjacent, and there is no whitespace at either end:
    stripping it changes nothing and its first character is not
    whitespace. *)
Theorem vcpkgize_string_normal_form (s : string) :
  (forall c, Str.has c (vcpkgize_string s) = true -> Str.isspace c = true -> c = " "%char) /\
  ~ occurs_in "  " (vcpkgize_string s) /\
  Str.strip (vcpkgize_string s) = vcpkgize_string s /\
  head_space (vcpkgize_string s) = false.
Proof.
  repeat split.
  - intros c. apply squeezed_has, vcpkgize_string_squeezed.
  - apply squeezed_no_double_space, vcpkgize_string_squeezed.
  - apply strip_strip.
  - apply rstrip_head_space, lstrip_head_space.
Qed.

Lemma vcpkgize_string_normal_form_witness :
  Str.LF <> " "%char /\ Str.has Str.LF (vcpkgize_string ("a" +:+ String Str.LF "b")) = false.
Proof.
  split; [discriminate|].
  destruct (Str.has Str.LF (vcpkgize_string ("a" +:+ String Str.LF "b"))) eqn:E; [|done].
  by pose proof (proj1 (vcpkgize_string_normal_form ("a" +:+ String Str.LF "b"))
                   Str.LF E eq_refl).
Defined.

Lemma no_open_no_tag (s : string) : Str.has "<"%char s = false -> no_tag s.
Proof.
  induction s as [|c s IH]; intros H; [done|].
  apply has_cons in H as [Hc H]. split; [done | by apply IH].
Qed.

Lemma no_close_no_tag (s : string) : Str.has ">"%char s = false -> no_tag s.
Proof.
  induction s as [|c s IH]; intros H; [done|].
  apply has_cons in H as [Hc H]. split; [done | by apply IH].
Qed.

Lemma lstrip_whitespace_sub_spaces (s : string) : forall in_run,
  (forall c, Str.has c s = true -> Str.isspace c = true) ->
  Str.lstrip (whitespace_sub_from in_run s) = "".
Proof.
  induction s as [|c s IH]; intros in_run H; [done|].
  assert (Str.isspace c = true) as Hc.
  { apply H. rewrite has_unfold. by destruct (ascii_dec c c). }
  assert (forall d, Str.has d s = true -> Str.isspace d = true) as Hs.
  { intros d Hd. apply H. rewrite has_unfold. by destruct (ascii_dec c d). }
  simpl. rewrite Hc. destruct in_run; [by apply IH|].
  simpl. by apply IH.
Qed.

(** X9: a text made of whitespace only, the empty text included, is
    normalized to the empty text. *)
Theorem vcpkgize_string_whitespace (s : string) :
  (forall c, Str.has c s = true -> Str.isspace c = true) ->
  vcpkgize_string s = "".
Proof.
  intros H. unfold vcpkgize_string.
  rewrite markup_remover_sub_id.
  - unfold Str.strip, whitespace_sub. by rewrite lstrip_whitespace_sub_spaces.
  - apply no_open_no_tag.
    destruct (Str.has "<"%char s) eqn:E; [|done]. by apply H in E.
Qed.

Lemma vcpkgize_string_whitespace_witness :
  vcpkgize_string (String "009"%char (String Str.LF "  ")) = "".
Proof.
  apply vcpkgize_string_whitespace.
  intros c Hc. rewrite !has_unfold in Hc.
  repeat (destruct (ascii_dec _ c) as [<-|]; [reflexivity|]).
  discriminate.
Defined.

Lemma markup_remover_sub_length (s : string) :
  String.length (markup_remover_sub s) <= String.length s.
Proof.
  induction s as [s IH] using string_length_ind.
  destruct s as [|c r]; [done|].
  rewrite markup_remover_sub_cons.
  assert (String.length (markup_remover_sub r) <= String.length r) as Hr
    by (apply IH; simpl; lia).
  destruct (ascii_dec c "<"%char); [|simpl; lia].
  destruct (tag_end r) as [r'|] eqn:E; [|simpl; lia].
  apply tag_end_length in E.
  assert (String.length (markup_remover_sub r') <= String.length r')
    by (apply IH; simpl; lia).
  simpl. lia.
Qed.

Lemma whitespace_sub_from_length (s : string) : forall in_run,
  String.length (whitespace_sub_from in_run s) <= String.length s.
Proof.
  induction s as [|c s IH]; intros in_run; [done|]. simpl.
  destruct (Str.isspace c); [destruct in_run|];
    simpl; pose proof (IH true); pose proof (IH false); lia.
Qed.

Lemma lstrip_length (s : string) : String.length (Str.lstrip s) <= String.length s.
Proof.
  induction s as [|c s IH]; [done|]. simpl.
  destruct (Str.isspace c); simpl; lia.
Qed.

Lemma rstrip_length (s : string) : String.length (Str.rstrip s) <= String.length s.
Proof.
  induction s as [|c s IH]; [done|].
  destruct (rstrip_cons c s) as [-> | ->]; simpl; lia.
Qed.

(** X10: normalization never makes a text longer. *)
Theorem vcpkgize_string_length (s : string) :
  String.length (vcpkgize_string s) <= String.length s.
Proof.
  unfold vcpkgize_string, Str.strip, whitespace_sub.
  pose proof (rstrip_length (Str.lstrip (whitespace_sub_from false (markup_remover_sub s)))).
  pose proof (lstrip_length (whitespace_sub_from false (markup_remover_sub s))).
  pose proof (whitespace_sub_from_length (markup_remover_sub s) false).
  pose proof (markup_remover_sub_length s).
  lia.
Qed.

(** ** Text formatter: what the markup removal matches *)

Lemma markup_remover_sub_app_no_open (a x : string) :
  Str.has "<"%char a = false ->
  markup_remover_sub (a +:+ x) = a +:+ markup_remover_sub x.
Proof.
  induction a as [|c a IH]; intros H; [done|].
  apply has_cons in H as [Hc H].
  rewrite !app_cons, markup_remover_sub_cons.
  destruct (ascii_dec c "<"%char); [done|]. by rewrite IH.
Qed.

Lemma tag_end_app_close (t r : string) :
  Str.has ">"%char t = false -> Str.has Str.LF t = false ->
  tag_end (t +:+ String ">"%char r) = Some r.
Proof.
  induction t as [|c t IH]; intros Hgt Hlf; [done|].
  apply has_cons in Hgt as [Hc Hgt]. apply has_cons in Hlf as [Hc' Hlf].
  rewrite app_cons. simpl.
  destruct (ascii_dec c ">"%char); [done|].
  destruct (ascii_dec c Str.LF); [done|]. by apply IH.
Qed.

Lemma tag_end_app_line_feed (t r : string) :
  Str.has ">"%char t = false -> tag_end (t +:+ String Str.LF r) = None.
Proof.
  induction t as [|c t IH]; intros Hgt; [done|].
  apply has_cons in Hgt as [Hc Hgt].
  rewrite app_cons. simpl.
  destruct (ascii_dec c ">"%char); [done|].
  destruct (ascii_dec c Str.LF); [done|]. by apply IH.
Qed.

(** X11: a tag on one line is removed whole: after a text [a] without
    ["<"], the characters from a ["<"] to the first [">"] that follows it,
    with no line feed in between, are dropped, and the removal goes on with
    the text after that [">"]. *)
Theorem markup_remover_sub_tag (a t r : string) :
  Str.has "<"%char a = false ->
  Str.has ">"%char t = false -> Str.has Str.LF t = false ->
  markup_remover_sub (a +:+ String "<"%char t +:+ String ">"%char r)
    = a +:+ markup_remover_sub r.
Proof.
  intros Ha Hgt Hlf.
  rewrite markup_remover_sub_app_no_open by done.
  rewrite app_cons, markup_remover_sub_cons.
  destruct (ascii_dec "<"%char "<"%char); [|done].
  by rewrite tag_end_app_close.
Qed.

Lemma markup_remover_sub_tag_witness :
  markup_remover_sub ("a " +:+ String "<"%char "b x=1<2" +:+ String ">"%char "c</b>")
    = "a " +:+ markup_remover_sub "c</b>".
Proof. apply markup_remover_sub_tag; reflexivity. Defined.

(** X12: a line without [">"] is kept whole, with every ["<"] it has: a tag
    that is closed only after a line feed is not removed. *)
Theorem markup_remover_sub_line (t r : string) :
  Str.has ">"%char t = false ->
  markup_remover_sub (t +:+ String Str.LF r) = t +:+ String Str.LF (markup_remover_sub r).
Proof.
  induction t as [|c t IH]; intros Hgt.
  - rewrite !app_empty_l, markup_remover_sub_cons.
    by destruct (ascii_dec Str.LF "<"%char).
  - apply has_cons in Hgt as [Hc Hgt].
    rewrite !app_cons, markup_remover_sub_cons, (IH Hgt).
    destruct (ascii_dec c "<"%char); [|done].
    by rewrite tag_end_app_line_feed.
Qed.

Lemma markup_remover_sub_line_witness :
  markup_remover_sub ("see <a href=x" +:+ String Str.LF "y>here</a>")
    = "see <a href=x" +:+ String Str.LF (markup_remover_sub "y>here</a>").
Proof. apply markup_remover_sub_line. reflexivity. Defined.

(** X13: a text without ["<"], or without [">"], is left as it is by the
    markup removal. *)
Theorem markup_remover_sub_plain (s : string) :
  Str.has "<"%char s = false \/ Str.has ">"%char s = false ->
  markup_remover_sub s = s.
Proof.
  intros [H|H]; apply markup_remover_sub_id.
  - by apply no_open_no_tag.
  - by apply no_close_no_tag.
Qed.

Lemma markup_remover_sub_plain_witness :
  markup_remover_sub "speed < 3 m/s" = "speed < 3 m/s".
Proof. apply markup_remover_sub_plain. right. reflexivity. Defined.

(** ** Text formatter: the lines of a description *)

Lemma has_app (c : ascii) (x y : string) :
  Str.has c (x +:+ y) = Str.has c x || Str.has c y.
Proof.
  induction x as [|d x IH]; [done|].
  rewrite app_cons, !has_unfold. by destruct (ascii_dec d c).
Qed.

Lemma lstrip_has (x : ascii) (s : string) :
  Str.has x s = false -> Str.has x (Str.lstrip s) = false.
Proof.
  induction s as [|c s IH]; intros H; [done|]. simpl.
  destruct (Str.isspace c); [|done].
  apply has_cons in H as [_ H]. by apply IH.
Qed.

Lemma squeezed_no_line_feed (t : string) : squeezed t -> Str.has Str.LF t = false.
Proof.
  intros Hsq. destruct (Str.has Str.LF t) eqn:E; [|done].
  by pose proof (squeezed_has t Str.LF Hsq E eq_refl).
Qed.

(** A text with one given character is split at that character in one way
    only. *)
Lemma split_at_unique (c : ascii) (p q x y : string) :
  Str.has c p = false -> Str.has c q = false ->
  p +:+ String c q = x +:+ String c y -> x = p /\ y = q.
Proof.
  revert x. induction p as [|d p IH]; intros x Hp Hq Heq.
  - destruct x as [|e x].
    + rewrite !app_empty_l in Heq. by injection Heq as ->.
    + rewrite app_empty_l, app_cons in Heq. injection Heq as _ ->.
      rewrite has_app, has_unfold in Hq.
      destruct (ascii_dec c c); [|done]. by rewrite orb_true_r in Hq.
  - apply has_cons in Hp as [Hd Hp]. destruct x as [|e x].
    + rewrite app_empty_l, app_cons in Heq. by injection Heq as ->.
    + rewrite !app_cons in Heq. injection Heq as -> Heq.
      by destruct (IH x Hp Hq Heq) as [-> ->].
Qed.

(** X14: a formatted description has at most one line feed, and the line
    after it starts with a space, as a continuation line of a control file
    must: whenever the result is [x], a line feed and [y], neither [x] nor
    [y] has a line feed and [y] starts with a space. *)
Theorem format_description_lines (s x y : string) :
  format_description s = x +:+ String Str.LF y ->
  Str.has Str.LF x = false /\ Str.has Str.LF y = false /\ Str.startswith " " y = true.
Proof.
  unfold format_description.
  pose proof (squeezed_no_line_feed _ (vcpkgize_string_squeezed s)) as Hlf.
  set (v := vcpkgize_string s) in *. unfold Str.split1.
  assert (v = x +:+ String Str.LF y -> False) as Hv.
  { intros Heq. rewrite Heq, has_app, has_unfold in Hlf.
    destruct (ascii_dec Str.LF Str.LF); [|done]. by rewrite orb_true_r in Hlf. }
  destruct (Str.find_split ". " v) as [[a b]|] eqn:Hf; simpl; [|by intros H; destruct Hv].
  apply find_split_Some in Hf as [Heq _].
  destruct (String.length b =? 0); [by intros H; destruct Hv|].
  rewrite Heq, !has_app in Hlf.
  apply orb_false_iff in Hlf as [Ha Hb].
  apply orb_false_iff in Hb as [_ Hb].
  intros H.
  change (a +:+ "." +:+ String Str.LF " " +:+ Str.strip b)
    with (a +:+ "." +:+ String Str.LF (" " +:+ Str.strip b)) in H.
  rewrite <- app_assoc_str in H.
  apply split_at_unique in H as [-> ->].
  - repeat split.
    + by rewrite has_app, Ha.
    + rewrite has_app. apply orb_false_iff. split; [done|].
      by apply rstrip_has, lstrip_has.
  - by rewrite has_app, Ha.
  - rewrite has_app. apply orb_false_iff. split; [done|].
    by apply rstrip_has, lstrip_has.
Qed.

Lemma format_description_lines_witness :
  Str.has Str.LF "Tools." = false /\ Str.has Str.LF " For robots. Really." = false /\
  Str.startswith " " " For robots. Really." = true.
Proof.
  apply (format_description_lines " Tools.  For <b>robots</b>. Really. ").
  reflexivity.
Defined.

Lemma whitespace_sub_from_fold (a b : string) : forall in_run,
  whitespace_sub_from in_run (a +:+ "." +:+ String Str.LF " " +:+ b)
    = whitespace_sub_from in_run (a +:+ ". " +:+ b).
Proof.
  induction a as [|c a IH]; intros in_run; [done|].
  rewrite !app_cons. simpl.
  destruct (Str.isspace c); [destruct in_run|]; by rewrite IH.
Qed.

Lemma no_tag_fold (a b : string) :
  no_tag (a +:+ ". " +:+ b) -> no_tag (a +:+ "." +:+ String Str.LF " " +:+ b).
Proof.
  induction a as [|c a IH]; intros H.
  - destruct H as (_ & _ & H). by repeat split.
  - rewrite app_cons in *. destruct H as [Hc H]. split; [|by apply IH].
    intros E. specialize (Hc E). rewrite !has_app in *.
    apply orb_false_iff in Hc as [Ha Hb].
    apply orb_false_iff in Hb as [_ Hb]. by rewrite Ha, Hb.
Qed.

Lemma rstrip_app_id (x y : string) : Str.rstrip (x +:+ y) = x +:+ y -> Str.rstrip y = y.
Proof.
  induction x as [|c x IH]; [done|]. rewrite app_cons. intros H.
  destruct (rstrip_cons c (x +:+ y)) as [E|E]; rewrite E in H; [|done].
  injection H as H. by apply IH.
Qed.

(** The normalized text is a fixed point of the normalization when it has
    no tag. *)
Lemma vcpkgize_string_fixed (s : string) :
  no_tag (vcpkgize_string s) -> vcpkgize_string (vcpkgize_string s) = vcpkgize_string s.
Proof.
  intros Htag. unfold vcpkgize_string at 1.
  rewrite (markup_remover_sub_id _ Htag). unfold whitespace_sub.
  rewrite whitespace_sub_from_id; [apply strip_strip | apply vcpkgize_string_squeezed | done].
Qed.

Lemma vcpkgize_string_no_tag (s : string) :
  Str.has Str.LF s = false -> no_tag (vcpkgize_string s).
Proof.
  intros H. apply rstrip_no_tag, lstrip_no_tag, whitespace_sub_from_no_tag.
  by apply markup_remover_sub_no_tag.
Qed.

Lemma vcpkgize_format_description (s : string) :
  Str.has Str.LF s = false ->
  vcpkgize_string (format_description s) = vcpkgize_string s.
Proof.
  intros Hlf.
  pose proof (vcpkgize_string_no_tag s Hlf) as Htag.
  pose proof (vcpkgize_string_fixed s Htag) as Hfix.
  pose proof (vcpkgize_string_squeezed s) as Hsq.
  assert (Str.rstrip (vcpkgize_string s) = vcpkgize_string s) as Hr
    by apply rstrip_rstrip.
  unfold format_description.
  set (v := vcpkgize_string s) in *. unfold Str.split1.
  destruct (Str.find_split ". " v) as [[a b]|] eqn:Hf; simpl; [|done].
  apply find_split_Some in Hf as [Heq _].
  destruct (String.length b =? 0); [done|].
  assert (Str.strip b = b) as ->.
  { unfold Str.strip. rewrite lstrip_id.
    - rewrite Heq in Hr. rewrite <- app_assoc_str in Hr. by apply rstrip_app_id in Hr.
    - rewrite Heq in Hsq. apply squeezed_app_r in Hsq.
      destruct Hsq as [_ [Hsp _]]. by destruct (Hsp eq_refl). }
  rewrite <- Hfix. rewrite Heq in Htag |- *.
  unfold vcpkgize_string.
  rewrite (markup_remover_sub_id _ (no_tag_fold a b Htag)).
  rewrite (markup_remover_sub_id _ Htag).
  unfold whitespace_sub. by rewrite whitespace_sub_from_fold.
Qed.

(** X15: on a text without line feed, formatting is idempotent, and
    normalizing a formatted description gives the normalized text back. *)
Theorem format_description_idempotent (s : string) :
  Str.has Str.LF s = false ->
  vcpkgize_string (format_description s) = vcpkgize_string s /\
  format_description (format_description s) = format_description s.
Proof.
  intros Hlf. pose proof (vcpkgize_format_description s Hlf) as H.
  split; [done|].
  unfold format_description at 1 3. by rewrite H.
Qed.

Lemma format_description_idempotent_witness :
  vcpkgize_string (format_description " Tools.  For <b>robots</b>. Really. ")
    = vcpkgize_string " Tools.  For <b>robots</b>. Really. " /\
  format_description (format_description " Tools.  For <b>robots</b>. Really. ")
    = format_description " Tools.  For <b>robots</b>. Really. ".
Proof. apply format_description_idempotent. reflexivity. Defined.

(** ** Substitution hook: the whole run *)

(** The run of the hook once the build type is accepted and the index has
    the release url of the package: what it returns and the world it leaves
    in every case. *)
Lemma get_subs_hook_run (index : Index) (package : Package) (ros_distro : string)
    (w : world) (distribution_file : DistributionFile) (release_url : string) :
  build_type package = "ament_cmake" ->
  index !! ros_distro = Some distribution_file ->
  distribution_file !! package_name package = Some release_url ->
  get_subs_hook index package ros_distro w =
    let calls' := GetDistributionFile ros_distro :: GetIndex :: calls w in
    match find (fun g => Str.contains g release_url) vcpkg_support_git_sources with
    | None => (Raise (SystemExit (unsupported_release_url release_url)),
               World (subs w) calls')
    | Some g =>
        let subs1 := <["git_source" := g]> (subs w) in
        match index_from_end (Str.split_char "/"%char release_url) 2 with
        | Raise e => (Raise e, World subs1 calls')
        | Ok user_name =>
            let subs2 := <["user_name" := user_name]> subs1 in
            match index_from_end (Str.split_char "/"%char release_url) 1 with
            | Raise e => (Raise e, World subs2 calls')
            | Ok repo_name =>
                let subs3 :=
                  <["repo_name" := if Str.contains ".git" repo_name
                                   then Str.drop_last 4 repo_name else repo_name]> subs2 in
                match generate_tag_name subs3 with
                | Raise e => (Raise e, World subs3 calls')
                | Ok tag_name =>
                    (Ok (<["tag_name" := tag_name]> subs3),
                     World (<["tag_name" := tag_name]> subs3) calls')
                end
            end
        end
    end.
Proof.
  intros Hbt Hindex Hurl. run_hook. rewrite Hbt, Hindex, Hurl.
  cbv [String.eqb Ascii.eqb Bool.eqb negb select_git_source vcpkg_support_git_sources
       find setitem getitem lift get_subs error raise]; cbn [subs calls].
  destruct (Str.contains "github" release_url);
    [|destruct (Str.contains "gitlab" release_url);
      [|destruct (Str.contains "bitbucket" release_url); [|done]]].
  all: destruct (index_from_end (Str.split_char "/"%char release_url) 2)
         as [user_name|]; [|done].
  all: destruct (index_from_end (Str.split_char "/"%char release_url) 1)
         as [repo_name|]; [|done].
  all: cbn [subs calls]; rewrite lookup_insert_eq.
  all: destruct (Str.contains ".git" repo_name); cbn [subs calls];
         rewrite ?lookup_insert_eq; cbn [subs calls]; rewrite ?insert_insert_eq.
  all: match goal with |- context [generate_tag_name ?m] =>
         destruct (generate_tag_name m) end; done.
Qed.

Lemma find_first_source (release_url g : string) (later : list string) : forall earlier,
  (forall h, h ∈ earlier -> ~ occurs_in h release_url) ->
  occurs_in g release_url ->
  find (fun g => Str.contains g release_url) (earlier ++ g :: later) = Some g.
Proof.
  induction earlier as [|h earlier IH]; intros H Hg; simpl.
  - by apply contains_occurs_in in Hg as ->.
  - assert (Str.contains h release_url = false) as ->.
    { apply contains_not_occurs_in, H, list_elem_of_here. }
    apply IH; [|done]. intros h' Hh'. by apply H, list_elem_of_further.
Qed.

Lemma index_from_end_app {A : Type} (init rest : list A) (x : A) :
  index_from_end (init ++ x :: rest) (S (length rest)) = Ok x.
Proof.
  unfold index_from_end. rewrite length_app. simpl.
  destruct (length init + S (length rest) <? S (length rest)) eqn:E.
  - apply Nat.ltb_lt in E. lia.
  - replace (length init + S (length rest) - S (length rest)) with (length init) by lia.
    rewrite nth_error_app2 by lia. by rewrite Nat.sub_diag.
Qed.

Lemma index_from_end_elem_of {A : Type} (l : list A) (k : nat) (x : A) :
  index_from_end l k = Ok x -> x ∈ l.
Proof.
  unfold index_from_end. destruct (length l <? k); [discriminate|].
  destruct (nth_error l (length l - k)) eqn:E; [|discriminate].
  intros [= <-]. apply list_elem_of_In. by apply nth_error_In in E.
Qed.

Lemma generate_tag_name_insert (subs : Subs) (key value : string) :
  key <> "Package" -> key <> "Version" -> key <> "Inc" -> key <> "Distribution" ->
  generate_tag_name (<[key := value]> subs) = generate_tag_name subs.
Proof.
  intros. rewrite !generate_tag_name_lookups. by rewrite !lookup_insert_ne.
Qed.

(** A hook that returns has accepted the build type and found the release
    url of the package in the index. *)
Lemma get_subs_hook_Ok_inv (index : Index) (package : Package) (ros_distro : string)
    (w w' : world) (returned : Subs) :
  get_subs_hook index package ros_distro w = (Ok returned, w') ->
  build_type package = "ament_cmake" /\
  exists distribution_file release_url,
    index !! ros_distro = Some distribution_file /\
    distribution_file !! package_name package = Some release_url.
Proof.
  intros H.
  destruct (String.eqb (build_type package) "ament_cmake") eqn:Hbt.
  - apply String.eqb_eq in Hbt. split; [done|].
    destruct (index !! ros_distro) as [distribution_file|] eqn:Hindex.
    + destruct (distribution_file !! package_name package) as [release_url|] eqn:Hurl;
        [eauto|].
      revert H. run_hook. by rewrite Hbt, Hindex, Hurl.
    + revert H. run_hook. by rewrite Hbt, Hindex.
  - revert H. run_hook. by rewrite Hbt.
Qed.

(** X16: the tag name in the returned dict is the tag name of that dict:
    whenever the hook returns, the dict it returns is the dict [subs] it
    leaves, and its entry [tag_name] is what [generate_tag_name] gives on
    it. *)
Theorem get_subs_hook_tag_name (index : Index) (package : Package) (ros_distro : string)
    (w w' : world) (returned : Subs) :
  get_subs_hook index package ros_distro w = (Ok returned, w') ->
  subs w' = returned /\
  exists tag_name,
    returned !! "tag_name" = Some tag_name /\ generate_tag_name returned = Ok tag_name.
Proof.
  intros H.
  destruct (get_subs_hook_Ok_inv _ _ _ _ _ _ H) as (Hbt & df & url & Hindex & Hurl).
  rewrite (get_subs_hook_run _ _ _ _ _ _ Hbt Hindex Hurl) in H. cbv zeta in H.
  repeat case_match; try discriminate.
  all: injection H as <- <-; split; [done|].
  all: eexists; split; [apply lookup_insert_eq|].
  all: by rewrite generate_tag_name_insert.
Qed.

Lemma get_subs_hook_tag_name_witness :
  exists returned w',
    get_subs_hook (sample_index "https://github.com/acme/widget.git") sample_package
      "humble" (World sample_subs []) = (Ok returned, w') /\
    subs w' = returned /\
    exists tag_name,
      returned !! "tag_name" = Some tag_name /\ generate_tag_name returned = Ok tag_name.
Proof.
  eexists _, _. split; [reflexivity|].
  apply (get_subs_hook_tag_name (sample_index "https://github.com/acme/widget.git")
           sample_package "humble" (World sample_subs [])).
  reflexivity.
Defined.

(** X17: the hook writes the keys [git_source], [user_name], [repo_name] and
    [tag_name] only: whether it returns or raises, every other key of
    [subs] has the value it had, or is still absent. *)
Theorem get_subs_hook_other_keys (index : Index) (package : Package) (ros_distro : string)
    (w : world) (key : string) :
  key <> "git_source" -> key <> "user_name" -> key <> "repo_name" -> key <> "tag_name" ->
  subs (get_subs_hook index package ros_distro w).2 !! key = subs w !! key.
Proof.
  intros Hg Hu Hr Ht.
  destruct (String.eqb (build_type package) "ament_cmake") eqn:Hbt.
  2: { run_hook. by rewrite Hbt. }
  destruct (index !! ros_distro) as [distribution_file|] eqn:Hindex.
  2: { run_hook. by rewrite Hbt, Hindex. }
  destruct (distribution_file !! package_name package) as [release_url|] eqn:Hurl.
  2: { run_hook. by rewrite Hbt, Hindex, Hurl. }
  apply String.eqb_eq in Hbt.
  rewrite (get_subs_hook_run _ _ _ _ _ _ Hbt Hindex Hurl). cbv zeta.
  repeat case_match; simpl; by rewrite ?lookup_insert_ne.
Qed.

Lemma get_subs_hook_other_keys_witness :
  subs (get_subs_hook (sample_index "https://github.com/acme/widget.git") sample_package
          "humble" (World sample_subs [])).2 !! "Version" = sample_subs !! "Version".
Proof.
  apply (get_subs_hook_other_keys _ _ _ (World sample_subs [])); discriminate.
Defined.

(** ** Substitution hook: the coordinates *)

(** The three coordinates in the world the hook leaves, whether the tag
    name can be built or not. *)
Lemma get_subs_hook_coordinates (index : Index) (package : Package) (ros_distro : string)
    (w : world) (distribution_file : DistributionFile) (release_url g u r : string) :
  build_type package = "ament_cmake" ->
  index !! ros_distro = Some distribution_file ->
  distribution_file !! package_name package = Some release_url ->
  find (fun g => Str.contains g release_url) vcpkg_support_git_sources = Some g ->
  index_from_end (Str.split_char "/"%char release_url) 2 = Ok u ->
  index_from_end (Str.split_char "/"%char release_url) 1 = Ok r ->
  subs (get_subs_hook index package ros_distro w).2 !! "git_source" = Some g /\
  subs (get_subs_hook index package ros_distro w).2 !! "user_name" = Some u /\
  subs (get_subs_hook index package ros_distro w).2 !! "repo_name"
    = Some (if Str.contains ".git" r then Str.drop_last 4 r else r).
Proof.
  intros Hbt Hindex Hurl Hfind Hu Hr.
  rewrite (get_subs_hook_run _ _ _ _ _ _ Hbt Hindex Hurl). cbv zeta.
  rewrite Hfind, Hu, Hr.
  destruct (generate_tag_name _); simpl; repeat split;
    repeat (rewrite lookup_insert_ne by done); by rewrite lookup_insert_eq.
Qed.

Lemma index_from_end_2 {A : Type} (init : list A) (u r : A) :
  index_from_end (init ++ [u; r]) 2 = Ok u.
Proof. exact (index_from_end_app init [r] u). Qed.

Lemma index_from_end_1 {A : Type} (init : list A) (u r : A) :
  index_from_end (init ++ [u; r]) 1 = Ok r.
Proof.
  replace (init ++ [u; r]) with ((init ++ [u]) ++ [r]) by by rewrite <- app_assoc.
  exact (index_from_end_app (init ++ [u]) [] r).
Qed.

Lemma take_app_length (a b : string) : Str.take (String.length a) (a +:+ b) = a.
Proof. induction a as [|c a IH]; [by destruct b|]. rewrite app_cons. simpl. by rewrite IH. Qed.

Lemma drop_last_suffix (a suffix : string) :
  Str.drop_last (String.length suffix) (a +:+ suffix) = a.
Proof.
  unfold Str.drop_last. rewrite length_app_str.
  replace (String.length a + String.length suffix - String.length suffix)
    with (String.length a) by lia.
  apply take_app_length.
Qed.

(** X18: the whole result of a successful run.  With the build type
    accepted, the release url found, [g] the first source that occurs in
    the url, [u] and [r] the last two segments of the url and the four tag
    fields present, the hook returns the dict it was given with
    [git_source], [user_name], [repo_name] and [tag_name] set, having made
    the two calls to the index. *)
Theorem get_subs_hook_returns (index : Index) (package : Package) (ros_distro : string)
    (w : world) (distribution_file : DistributionFile) (release_url g u r : string)
    (earlier later init : list string) (p v i d : string) :
  build_type package = "ament_cmake" ->
  index !! ros_distro = Some distribution_file ->
  distribution_file !! package_name package = Some release_url ->
  vcpkg_support_git_sources = earlier ++ g :: later ->
  (forall h, h ∈ earlier -> ~ occurs_in h release_url) ->
  occurs_in g release_url ->
  Str.split_char "/"%char release_url = init ++ [u; r] ->
  subs w !! "Package" = Some p -> subs w !! "Version" = Some v ->
  subs w !! "Inc" = Some i -> subs w !! "Distribution" = Some d ->
  let repo_name := if Str.contains ".git" r then Str.drop_last 4 r else r in
  let tag_name := package_manager +:+ "/" +:+ p +:+ "_" +:+ v +:+ "-" +:+ i +:+ "_" +:+ d in
  let returned :=
    <["tag_name" := tag_name]> (<["repo_name" := repo_name]>
      (<["user_name" := u]> (<["git_source" := g]> (subs w)))) in
  get_subs_hook index package ros_distro w
    = (Ok returned,
       World returned (GetDistributionFile ros_distro :: GetIndex :: calls w)).
Proof.
  intros Hbt Hindex Hurl Hlist Hearlier Hg Hsplit Hp Hv Hi Hd.
  rewrite (get_subs_hook_run _ _ _ _ _ _ Hbt Hindex Hurl). cbv zeta.
  rewrite Hlist, (find_first_source _ _ _ _ Hearlier Hg), Hsplit.
  rewrite index_from_end_2, index_from_end_1.
  rewrite generate_tag_name_lookups.
  repeat (rewrite lookup_insert_ne by done). by rewrite Hp, Hv, Hi, Hd.
Qed.

Lemma get_subs_hook_returns_witness :
  get_subs_hook (sample_index "https://gitlab.com/acme/tools/widget") sample_package
      "humble" (World sample_subs [])
    = (Ok (<["tag_name" := "vcpkg/widget_1.2.0-1_humble"]> (<["repo_name" := "widget"]>
             (<["user_name" := "tools"]> (<["git_source" := "gitlab"]> sample_subs)))),
       World (<["tag_name" := "vcpkg/widget_1.2.0-1_humble"]> (<["repo_name" := "widget"]>
                (<["user_name" := "tools"]> (<["git_source" := "gitlab"]> sample_subs))))
         [GetDistributionFile "humble"; GetIndex]).
Proof.
  apply (get_subs_hook_returns (sample_index "https://gitlab.com/acme/tools/widget")
           sample_package "humble" (World sample_subs [])
           {[ "widget" := "https://gitlab.com/acme/tools/widget" ]}
           "https://gitlab.com/acme/tools/widget" "gitlab" "tools" "widget"
           ["github"] ["bitbucket"] ["https:"; ""; "gitlab.com"; "acme"]
           "widget" "1.2.0" "1" "humble"); try reflexivity.
  - intros h Hh. apply contains_not_occurs_in.
    apply elem_of_cons in Hh as [->|Hh]; [reflexivity|]. by apply elem_of_nil in Hh.
  - by apply contains_occurs_in.
Defined.

(** X19: the suffix is handled as the comment in the source promises in
    these two cases: a last segment [base.git] is stored as [base], and a
    last segment in which [.git] does not occur is stored as it is.  This
    holds in the world the hook leaves, whether the tag name can be built
    or not. *)
Theorem get_subs_hook_repo_name (index : Index) (package : Package) (ros_distro : string)
    (w : world) (distribution_file : DistributionFile) (release_url g u r : string)
    (earlier later init : list string) :
  build_type package = "ament_cmake" ->
  index !! ros_distro = Some distribution_file ->
  distribution_file !! package_name package = Some release_url ->
  vcpkg_support_git_sources = earlier ++ g :: later ->
  (forall h, h ∈ earlier -> ~ occurs_in h release_url) ->
  occurs_in g release_url ->
  Str.split_char "/"%char release_url = init ++ [u; r] ->
  (forall base, r = base +:+ ".git" ->
     subs (get_subs_hook index package ros_distro w).2 !! "repo_name" = Some base) /\
  (~ occurs_in ".git" r ->
     subs (get_subs_hook index package ros_distro w).2 !! "repo_name" = Some r).
Proof.
  intros Hbt Hindex Hurl Hlist Hearlier Hg Hsplit.
  assert (find (fun g => Str.contains g release_url) vcpkg_support_git_sources = Some g)
    as Hfind by (rewrite Hlist; by apply find_first_source).
  destruct (get_subs_hook_coordinates index package ros_distro w _ _ g u r
              Hbt Hindex Hurl Hfind) as (_ & _ & Hrepo).
  { rewrite Hsplit. apply index_from_end_2. }
  { rewrite Hsplit. apply index_from_end_1. }
  split.
  - intros base ->. rewrite Hrepo.
    assert (Str.contains ".git" (base +:+ ".git") = true) as ->.
    { apply contains_occurs_in. exists base, "". by rewrite app_empty_r. }
    f_equal. apply (drop_last_suffix base ".git").
  - intros Hno. rewrite Hrepo.
    by apply contains_not_occurs_in in Hno as ->.
Qed.

Lemma get_subs_hook_repo_name_witness :
  subs (get_subs_hook (sample_index "https://bitbucket.org/acme/widget-release.git")
          sample_package "humble" (World ∅ [])).2 !! "repo_name" = Some "widget-release".
Proof.
  apply (proj1 (get_subs_hook_repo_name
                  (sample_index "https://bitbucket.org/acme/widget-release.git")
                  sample_package "humble" (World ∅ [])
                  {[ "widget" := "https://bitbucket.org/acme/widget-release.git" ]}
                  "https://bitbucket.org/acme/widget-release.git" "bitbucket" "acme"
                  "widget-release.git" ["github"; "gitlab"] []
                  ["https:"; ""; "bitbucket.org"]
                  eq_refl eq_refl eq_refl eq_refl
                  ltac:(intros h Hh; apply contains_not_occurs_in;
                        repeat (apply elem_of_cons in Hh as [->|Hh]; [reflexivity|]);
                        by apply elem_of_nil in Hh)
                  ltac:(by apply contains_occurs_in) eq_refl)).
  reflexivity.
Defined.

Lemma split_char_no_sep (c : ascii) (s : string) :
  Str.has c s = false -> Str.split_char c s = [s].
Proof.
  induction s as [|d s IH]; intros H; [done|].
  apply has_cons in H as [Hd H]. simpl.
  destruct (ascii_dec d c); [done|]. by rewrite (IH H).
Qed.

(** X20: a release url without ["/"] has one segment only.  When one of the
    sources occurs in it, the hook raises [IndexError] at the lookup of the
    second segment from the end, and [git_source] has been written by then:
    it stays in the dict. *)
Theorem get_subs_hook_one_segment (index : Index) (package : Package) (ros_distro : string)
    (w : world) (distribution_file : DistributionFile) (release_url g : string)
    (earlier later : list string) :
  build_type package = "ament_cmake" ->
  index !! ros_distro = Some distribution_file ->
  distribution_file !! package_name package = Some release_url ->
  vcpkg_support_git_sources = earlier ++ g :: later ->
  (forall h, h ∈ earlier -> ~ occurs_in h release_url) ->
  occurs_in g release_url ->
  Str.has "/"%char release_url = false ->
  get_subs_hook index package ros_distro w
    = (Raise IndexError,
       World (<["git_source" := g]> (subs w))
         (GetDistributionFile ros_distro :: GetIndex :: calls w)).
Proof.
  intros Hbt Hindex Hurl Hlist Hearlier Hg Hslash.
  rewrite (get_subs_hook_run _ _ _ _ _ _ Hbt Hindex Hurl). cbv zeta.
  rewrite Hlist, (find_first_source _ _ _ _ Hearlier Hg).
  by rewrite (split_char_no_sep _ _ Hslash).
Qed.

Lemma get_subs_hook_one_segment_witness :
  get_subs_hook (sample_index "git@gitlab.com:acme:widget.git") sample_package "humble"
      (World sample_subs [])
    = (Raise IndexError,
       World (<["git_source" := "gitlab"]> sample_subs)
         [GetDistributionFile "humble"; GetIndex]).
Proof.
  apply (get_subs_hook_one_segment (sample_index "git@gitlab.com:acme:widget.git")
           sample_package "humble" (World sample_subs [])
           {[ "widget" := "git@gitlab.com:acme:widget.git" ]}
           "git@gitlab.com:acme:widget.git" "gitlab" ["github"] ["bitbucket"]);
    try reflexivity.
  - intros h Hh. apply contains_not_occurs_in.
    apply elem_of_cons in Hh as [->|Hh]; [reflexivity|]. by apply elem_of_nil in Hh.
  - by apply contains_occurs_in.
Defined.

Lemma split_char_segments (c : ascii) (s : string) :
  forall segment, segment ∈ Str.split_char c s -> Str.has c segment = false.
Proof.
  induction s as [|d s IH]; intros segment H; simpl in H.
  - apply elem_of_cons in H as [->|H]; [done | by apply elem_of_nil in H].
  - destruct (ascii_dec d c) as [->|Hne].
    + apply elem_of_cons in H as [->|H]; [done | by apply IH].
    + destruct (Str.split_char c s) as [|h t].
      * apply elem_of_cons in H as [->|H]; [|by apply elem_of_nil in H].
        rewrite has_unfold. by destruct (ascii_dec d c).
      * apply elem_of_cons in H as [->|H].
        -- rewrite has_unfold. destruct (ascii_dec d c); [done|].
           apply IH, list_elem_of_here.
        -- by apply IH, list_elem_of_further.
Qed.

Lemma take_has (c : ascii) (s : string) : forall n,
  Str.has c s = false -> Str.has c (Str.take n s) = false.
Proof.
  induction s as [|d s IH]; intros [|n] H; try done.
  apply has_cons in H as [Hd H]. simpl.
  destruct (ascii_dec d c); [done|]. by apply IH.
Qed.

(** X21: the coordinates the hook returns have no ["/"]: in the returned
    dict [user_name] and [repo_name] are present and neither contains a
    slash. *)
Theorem get_subs_hook_no_slash (index : Index) (package : Package) (ros_distro : string)
    (w w' : world) (returned : Subs) :
  get_subs_hook index package ros_distro w = (Ok returned, w') ->
  exists user_name repo_name,
    returned !! "user_name" = Some user_name /\
    returned !! "repo_name" = Some repo_name /\
    Str.has "/"%char user_name = false /\ Str.has "/"%char repo_name = false.
Proof.
  intros H.
  destruct (get_subs_hook_Ok_inv _ _ _ _ _ _ H) as (Hbt & df & url & Hindex & Hurl).
  rewrite (get_subs_hook_run _ _ _ _ _ _ Hbt Hindex Hurl) in H. cbv zeta in H.
  destruct (find _ vcpkg_support_git_sources) as [g|]; [|discriminate].
  destruct (index_from_end (Str.split_char "/"%char url) 2) as [u|] eqn:Hu; [|discriminate].
  destruct (index_from_end (Str.split_char "/"%char url) 1) as [r|] eqn:Hr; [|discriminate].
  destruct (generate_tag_name _) as [t|]; [|discriminate].
  injection H as <- _.
  apply index_from_end_elem_of, split_char_segments in Hu, Hr.
  eexists u, _. split; [|split; [|split; [done|]]].
  - repeat (rewrite lookup_insert_ne by done). apply lookup_insert_eq.
  - rewrite lookup_insert_ne by done. apply lookup_insert_eq.
  - destruct (Str.contains ".git" r); [by apply take_has | done].
Qed.

Lemma get_subs_hook_no_slash_witness :
  exists user_name repo_name,
    (<["tag_name" := "vcpkg/widget_1.2.0-1_humble"]> (<["repo_name" := "widget"]>
       (<["user_name" := "tools"]> (<["git_source" := "gitlab"]> sample_subs))))
      !! "user_name" = Some user_name /\
    (<["tag_name" := "vcpkg/widget_1.2.0-1_humble"]> (<["repo_name" := "widget"]>
       (<["user_name" := "tools"]> (<["git_source" := "gitlab"]> sample_subs))))
      !! "repo_name" = Some repo_name /\
    Str.has "/"%char user_name = false /\ Str.has "/"%char repo_name = false.
Proof.
  apply (get_subs_hook_no_slash (sample_index "https://gitlab.com/acme/tools/widget")
           sample_package "humble" (World sample_subs [])
           (World (<["tag_name" := "vcpkg/widget_1.2.0-1_humble"]> (<["repo_name" := "widget"]>
                     (<["user_name" := "tools"]> (<["git_source" := "gitlab"]> sample_subs))))
              [GetDistributionFile "humble"; GetIndex])).
  reflexivity.
Defined.

Lemma split_char_nonempty (c : ascii) (s : string) : Str.split_char c s <> [].
Proof.
  destruct s as [|d s]; [done|]. simpl.
  destruct (ascii_dec d c); [done|]. by destruct (Str.split_char c s).
Qed.

Lemma split_char_snoc (c : ascii) (s : string) :
  Str.split_char c (s +:+ String c "") = Str.split_char c s ++ [""].
Proof.
  induction s as [|d s IH].
  - rewrite app_empty_l. simpl. by destruct (ascii_dec c c).
  - rewrite app_cons. simpl. rewrite IH.
    destruct (ascii_dec d c); [done|].
    pose proof (split_char_nonempty c s).
    by destruct (Str.split_char c s).
Qed.

(** X22: a release url that ends with ["/"] has an empty last segment: the
    hook stores the empty text as [repo_name] and the last segment before
    the final slash as [user_name]. *)
Theorem get_subs_hook_trailing_slash (index : Index) (package : Package)
    (ros_distro : string) (w : world) (distribution_file : DistributionFile)
    (base g last : string) (earlier later init : list string) :
  build_type package = "ament_cmake" ->
  index !! ros_distro = Some distribution_file ->
  distribution_file !! package_name package = Some (base +:+ "/") ->
  vcpkg_support_git_sources = earlier ++ g :: later ->
  (forall h, h ∈ earlier -> ~ occurs_in h (base +:+ "/")) ->
  occurs_in g (base +:+ "/") ->
  Str.split_char "/"%char base = init ++ [last] ->
  subs (get_subs_hook index package ros_distro w).2 !! "user_name" = Some last /\
  subs (get_subs_hook index package ros_distro w).2 !! "repo_name" = Some "".
Proof.
  intros Hbt Hindex Hurl Hlist Hearlier Hg Hsplit.
  assert (Str.split_char "/"%char (base +:+ "/") = init ++ [last; ""]) as Hsegments.
  { change (base +:+ "/") with (base +:+ String "/"%char "").
    by rewrite split_char_snoc, Hsplit, <- app_assoc. }
  assert (find (fun g => Str.contains g (base +:+ "/")) vcpkg_support_git_sources = Some g)
    as Hfind by (rewrite Hlist; by apply find_first_source).
  destruct (get_subs_hook_coordinates index package ros_distro w _ _ g last ""
              Hbt Hindex Hurl Hfind) as (_ & Huser & Hrepo).
  { rewrite Hsegments. apply index_from_end_2. }
  { rewrite Hsegments. apply index_from_end_1. }
  by split.
Qed.

Lemma get_subs_hook_trailing_slash_witness :
  subs (get_subs_hook (sample_index "https://github.com/acme/widget.git/") sample_package
          "humble" (World sample_subs [])).2 !! "user_name" = Some "widget.git" /\
  subs (get_subs_hook (sample_index "https://github.com/acme/widget.git/") sample_package
          "humble" (World sample_subs [])).2 !! "repo_name" = Some "".
Proof.
  apply (get_subs_hook_trailing_slash
           (sample_index "https://github.com/acme/widget.git/") sample_package "humble"
           (World sample_subs []) {[ "widget" := "https://github.com/acme/widget.git/" ]}
           "https://github.com/acme/widget.git" "github" "widget.git"
           [] ["gitlab"; "bitbucket"] ["https:"; ""; "github.com"; "acme"]);
    try reflexivity.
  - intros h Hh. by apply elem_of_nil in Hh.
  - by apply contains_occurs_in.
Defined.

(** ** Commands of [generate_package] *)

Lemma occurs_in_app_l (x a y : string) : occurs_in x y -> occurs_in x (a +:+ y).
Proof.
  intros (p & q & ->). exists (a +:+ p), q. by rewrite app_assoc_str.
Qed.

Lemma occurs_in_app_r (x y b : string) : occurs_in x y -> occurs_in x (y +:+ b).
Proof.
  intros (p & q & ->). exists p, (q +:+ b). by rewrite !app_assoc_str.
Qed.

Lemma occurs_in_refl (x : string) : occurs_in x x.
Proof. exists "", "". by rewrite app_empty_l, app_empty_r. Qed.

Lemma join_occurs_in (sep x : string) (l : list string) :
  x ∈ l -> occurs_in x (join sep l).
Proof.
  induction l as [|y l IH]; intros H; [by apply elem_of_nil in H|].
  destruct l as [|z l].
  - apply elem_of_cons in H as [->|H]; [apply occurs_in_refl | by apply elem_of_nil in H].
  - change (join sep (y :: z :: l)) with (y +:+ sep +:+ join sep (z :: l)).
    apply elem_of_cons in H as [->|H].
    + apply occurs_in_app_r, occurs_in_refl.
    + by apply occurs_in_app_l, occurs_in_app_l, IH.
Qed.

(** X23: the command that removes the residual template files names every
    one of them, between single quotes; without template files it is the
    bare command with no file name. *)
Theorem git_rm_command_files :
  (forall (template_files : list string) (t : string),
      t ∈ template_files ->
      occurs_in ("'" +:+ t +:+ "'") (git_rm_command template_files)) /\
  git_rm_command [] = "git rm -rf ".
Proof.
  split; [|reflexivity].
  intros template_files t Ht. unfold git_rm_command.
  apply occurs_in_app_l, join_occurs_in.
  apply list_elem_of_fmap. by exists t.
Qed.

Lemma git_rm_command_files_witness :
  occurs_in ("'" +:+ "vcpkg/portfile.cmake.em" +:+ "'")
    (git_rm_command ["vcpkg/CONTROL.em"; "vcpkg/portfile.cmake.em"]).
Proof.
  apply (proj1 git_rm_command_files).
  apply list_elem_of_further, list_elem_of_here.
Defined.

(** ** Substitution hook: a package the index does not have *)

(** X24: when the distribution file has no repository under the name of the
    package, the hook raises the [KeyError] of that name after its two
    calls to the index, and has written no entry of [subs]. *)
Theorem get_subs_hook_missing_repository (index : Index) (package : Package)
    (ros_distro : string) (w : world) (distribution_file : DistributionFile) :
  build_type package = "ament_cmake" ->
  index !! ros_distro = Some distribution_file ->
  distribution_file !! package_name package = None ->
  get_subs_hook index package ros_distro w
    = (Raise (KeyError (package_name package)),
       World (subs w) (GetDistributionFile ros_distro :: GetIndex :: calls w)).
Proof.
  intros Hbt Hindex Hurl. run_hook. by rewrite Hbt, Hindex, Hurl.
Qed.

Lemma get_subs_hook_missing_repository_witness :
  get_subs_hook (sample_index "https://github.com/acme/widget.git")
      {| package_name := "gadget"; build_type := "ament_cmake" |} "humble"
      (World sample_subs [])
    = (Raise (KeyError "gadget"), World sample_subs [GetDistributionFile "humble"; GetIndex]).
Proof.
  apply (get_subs_hook_missing_repository
           (sample_index "https://github.com/acme/widget.git")
           {| package_name := "gadget"; build_type := "ament_cmake" |} "humble"
           (World sample_subs []) {[ "widget" := "https://github.com/acme/widget.git" ]});
    reflexivity.
Defined.

(** ** Text formatter: when normalization is idempotent *)

Lemma markup_remover_sub_same_length (t : string) :
  String.length (markup_remover_sub t) = String.length t -> markup_remover_sub t = t.
Proof.
  induction t as [|c r IH]; [done|].
  rewrite markup_remover_sub_cons.
  pose proof (markup_remover_sub_length r) as Hr.
  assert (String.length (String c (markup_remover_sub r)) = String.length (String c r) ->
          String c (markup_remover_sub r) = String c r) as Hkeep.
  { simpl. intros H. rewrite IH; [done | lia]. }
  destruct (ascii_dec c "<"%char); [|done].
  destruct (tag_end r) as [r'|] eqn:E; [|done].
  apply tag_end_length in E. pose proof (markup_remover_sub_length r').
  simpl. lia.
Qed.

Lemma markup_remover_sub_fixed_no_tag (t : string) :
  Str.has Str.LF t = false -> markup_remover_sub t = t -> no_tag t.
Proof.
  induction t as [|c r IH]; intros Hlf H; [done|].
  apply has_cons in Hlf as [_ Hlf].
  rewrite markup_remover_sub_cons in H.
  destruct (ascii_dec c "<"%char) as [->|Hne].
  - destruct (tag_end r) as [r'|] eqn:E.
    + apply tag_end_length in E. pose proof (markup_remover_sub_length r') as Hlen.
      rewrite H in Hlen. simpl in Hlen. lia.
    + injection H as H. split; [|by apply IH].
      intros _. by apply tag_end_None_has.
  - injection H as H. split; [done | by apply IH].
Qed.

Lemma whitespace_sub_from_has_true (x : ascii) (s : string) : forall in_run,
  Str.isspace x = false -> Str.has x s = true ->
  Str.has x (whitespace_sub_from in_run s) = true.
Proof.
  induction s as [|c r IH]; intros in_run Hx H; [done|].
  rewrite has_unfold in H. simpl.
  destruct (ascii_dec c x) as [->|Hne].
  - rewrite Hx, has_unfold. by destruct (ascii_dec x x).
  - destruct (Str.isspace c); [destruct in_run|]; rewrite ?has_unfold;
      repeat match goal with |- context [ascii_dec ?a x] => destruct (ascii_dec a x) end;
      try done; by apply IH.
Qed.

Lemma lstrip_has_true (x : ascii) (s : string) :
  Str.isspace x = false -> Str.has x s = true -> Str.has x (Str.lstrip s) = true.
Proof.
  induction s as [|c r IH]; intros Hx H; [done|]. simpl.
  destruct (Str.isspace c) eqn:Ec; [|done].
  rewrite has_unfold in H. destruct (ascii_dec c x) as [->|]; [congruence | by apply IH].
Qed.

Lemma rstrip_has_true (x : ascii) (s : string) :
  Str.isspace x = false -> Str.has x s = true -> Str.has x (Str.rstrip s) = true.
Proof.
  induction s as [|c r IH]; intros Hx H; [done|].
  rewrite has_unfold in H. simpl.
  destruct (ascii_dec c x) as [->|Hne].
  - rewrite Hx. destruct (Str.rstrip r); rewrite has_unfold; by destruct (ascii_dec x x).
  - specialize (IH Hx H). destruct (Str.rstrip r) as [|d r'] eqn:E; [done|].
    rewrite has_unfold. by destruct (ascii_dec c x).
Qed.

Lemma not_true_false (b : bool) : (b = true -> False) -> b = false.
Proof. by destruct b; [intros []|]. Qed.

Lemma whitespace_sub_from_no_tag_inv (s : string) : forall in_run,
  no_tag (whitespace_sub_from in_run s) -> no_tag s.
Proof.
  induction s as [|c r IH]; intros in_run H; [done|]. simpl in H.
  destruct (Str.isspace c) eqn:Ec.
  - split; [by intros -> |].
    destruct in_run; [by apply (IH true) | by apply (IH true), H].
  - destruct H as [Hc H]. split; [|by apply (IH false)].
    intros E. specialize (Hc E). apply not_true_false. intros Hgt.
    by rewrite (whitespace_sub_from_has_true ">"%char r false eq_refl Hgt) in Hc.
Qed.

Lemma lstrip_no_tag_inv (s : string) : no_tag (Str.lstrip s) -> no_tag s.
Proof.
  induction s as [|c r IH]; intros H; [done|]. simpl in H.
  destruct (Str.isspace c) eqn:Ec; [|done].
  split; [by intros -> | by apply IH].
Qed.

Lemma rstrip_no_tag_inv (s : string) : no_tag (Str.rstrip s) -> no_tag s.
Proof.
  induction s as [|c r IH]; intros H; [done|].
  destruct (rstrip_cons c r) as [E|E]; rewrite E in H.
  - destruct H as [Hc H]. split; [|by apply IH].
    intros Ec. specialize (Hc Ec). apply not_true_false. intros Hgt.
    by rewrite (rstrip_has_true ">"%char r eq_refl Hgt) in Hc.
  - apply no_open_no_tag, not_true_false. intros Hlt.
    pose proof (rstrip_has_true "<"%char (String c r) eq_refl Hlt) as Hr.
    by rewrite E in Hr.
Qed.

(** The normalized text has a tag left exactly when the text has one left
    after the markup removal. *)
Lemma vcpkgize_string_no_tag_iff (s : string) :
  no_tag (vcpkgize_string s) <-> no_tag (markup_remover_sub s).
Proof.
  split.
  - intros H. by apply rstrip_no_tag_inv, lstrip_no_tag_inv,
      whitespace_sub_from_no_tag_inv in H.
  - intros H. by apply rstrip_no_tag, lstrip_no_tag, whitespace_sub_from_no_tag.
Qed.

(** C3: [vcpkgize_string] applied twice gives the same as applied once
    exactly for the texts in which, once the tags that lie on one line are
    removed, no ["<"] has a [">"] after it.  This is so for every text
    without line feed, and for every text without ["<"] or without [">"]. *)
Theorem vcpkgize_string_idempotent (s : string) :
  (vcpkgize_string (vcpkgize_string s) = vcpkgize_string s <->
   no_tag (markup_remover_sub s)) /\
  (Str.has Str.LF s = false ->
   vcpkgize_string (vcpkgize_string s) = vcpkgize_string s) /\
  (Str.has "<"%char s = false \/ Str.has ">"%char s = false ->
   vcpkgize_string (vcpkgize_string s) = vcpkgize_string s).
Proof.
  assert (no_tag (markup_remover_sub s) ->
          vcpkgize_string (vcpkgize_string s) = vcpkgize_string s) as Hif.
  { intros H. by apply vcpkgize_string_fixed, vcpkgize_string_no_tag_iff. }
  split; [split; [|done] | split].
  - intros H. apply vcpkgize_string_no_tag_iff.
    apply markup_remover_sub_fixed_no_tag.
    { apply squeezed_no_line_feed, vcpkgize_string_squeezed. }
    apply markup_remover_sub_same_length.
    pose proof (markup_remover_sub_length (vcpkgize_string s)).
    assert (String.length (vcpkgize_string (vcpkgize_string s))
            <= String.length (markup_remover_sub (vcpkgize_string s))) as Hle.
    { unfold vcpkgize_string at 1. unfold Str.strip, whitespace_sub.
      pose proof (rstrip_length (Str.lstrip (whitespace_sub_from false
                    (markup_remover_sub (vcpkgize_string s))))).
      pose proof (lstrip_length (whitespace_sub_from false
                    (markup_remover_sub (vcpkgize_string s)))).
      pose proof (whitespace_sub_from_length
                    (markup_remover_sub (vcpkgize_string s)) false).
      lia. }
    rewrite H in Hle. lia.
  - intros Hlf. by apply Hif, markup_remover_sub_no_tag.
  - intros [H|H]; apply Hif.
    + rewrite markup_remover_sub_id; by apply no_open_no_tag.
    + rewrite markup_remover_sub_id; by apply no_close_no_tag.
Qed.

Lemma vcpkgize_string_idempotent_witness :
  vcpkgize_string (vcpkgize_string ("  A <b>fast</b>" +:+ String Str.LF " planner, <3s. "))
    = vcpkgize_string ("  A <b>fast</b>" +:+ String Str.LF " planner, <3s. ") /\
  vcpkgize_string (vcpkgize_string "  A <b>fast</b>   <planner  for arms. ")
    = vcpkgize_string "  A <b>fast</b>   <planner  for arms. ".
Proof.
  split.
  - apply (proj2 (proj1 (vcpkgize_string_idempotent
                           ("  A <b>fast</b>" +:+ String Str.LF " planner, <3s. ")))).
    vm_compute. repeat split; intros; try reflexivity; discriminate.
  - apply (proj1 (proj2 (vcpkgize_string_idempotent
                           "  A <b>fast</b>   <planner  for arms. "))).
    reflexivity.
Defined.

(** C3, as first stated, fails: a tag that a line feed splits is kept by the
    first pass, which turns the line feed into a space, and removed by the
    second. *)
Lemma vcpkgize_string_not_idempotent :
  vcpkgize_string ("<a" +:+ String Str.LF "b>") = "<a b>" /\
  vcpkgize_string "<a b>" = "" /\
  vcpkgize_string (vcpkgize_string ("<a" +:+ String Str.LF "b>"))
    <> vcpkgize_string ("<a" +:+ String Str.LF "b>").
Proof. repeat split. vm_compute. discriminate. Qed.

(** ** Substitution hook: the dict at the time of the build type check *)

(** C8, as first stated, fails: the build type is not checked before any
    entry is assembled.  The hook needs a dict that holds the tag fields
    already, since from the empty dict an accepted package ends in the
    [KeyError] of [Package]; and when it rejects a build type, the dict
    holds the entries it was given, here [Package] among them. *)
Lemma get_subs_hook_checks_filled_dict :
  (get_subs_hook (sample_index "https://github.com/acme/widget.git") sample_package
     "humble" (World ∅ [])).1 = Raise (KeyError "Package") /\
  get_subs_hook (sample_index "https://github.com/acme/widget.git")
      {| package_name := "widget"; build_type := "cmake" |} "humble" (World sample_subs [])
    = (Raise (SystemExit (unsupported_build_type "cmake")), World sample_subs []) /\
  sample_subs !! "Package" = Some "widget" /\
  ~ (forall (index : Index) (package : Package) (ros_distro : string) (w : world),
       build_type package <> "ament_cmake" ->
       subs (get_subs_hook index package ros_distro w).2 = ∅).
Proof.
  repeat split.
  intros H.
  specialize (H (sample_index "https://github.com/acme/widget.git")
                {| package_name := "widget"; build_type := "cmake" |} "humble"
                (World sample_subs [])).
  assert (subs (get_subs_hook (sample_index "https://github.com/acme/widget.git")
                  {| package_name := "widget"; build_type := "cmake" |} "humble"
                  (World sample_subs [])).2 !! "Package" = Some "widget") as Hp
    by reflexivity.
  rewrite H in Hp by discriminate. by rewrite lookup_empty in Hp.
Qed.
